(** * network_diag: ping sweep, TCP port scan and HTTP checker

    A shallow embedding of [network-tool/network_diag.py].  Pure helpers
    ([parse_ports], the host enumerations) are Rocq functions.  Code that
    talks to the operating system takes the answer of the system as an
    explicit argument, and code that fans work out over a
    [ThreadPoolExecutor] takes the order in which [as_completed] hands the
    futures back.  A Python call either returns or raises: [pyres].

    Text is modelled as [string], one character per code point below 256. *)

From Stdlib Require Import Ascii Floats.
From stdpp Require Import prelude strings pretty sorting.

Open Scope Z_scope.

(** ** Python results and exceptions *)

Inductive exn_class :=
  | ValueError | UnicodeError | OverflowError | RuntimeError
  | OSError | gaierror
  | RequestException | ConnectionError | Timeout.

Record exn := Exn { exn_type : exn_class; exn_str : string }.

Inductive pyres (A : Type) :=
  | Returned (a : A)
  | Raised (e : exn).
Arguments Returned {A} a.
Arguments Raised {A} e.

Global Instance pyres_ret : MRet pyres := @Returned.
Global Instance pyres_bind : MBind pyres := λ A B f m,
  match m with Returned a => f a | Raised e => Raised e end.

Definition is_returned {A} (r : pyres A) : bool :=
  match r with Returned _ => true | Raised _ => false end.

(** [except socket.gaierror] *)
Definition isinstance_gaierror (e : exn) : bool :=
  match exn_type e with gaierror => true | _ => false end.

(** [except requests.exceptions.RequestException]: the class and its
    subclasses. *)
Definition isinstance_RequestException (e : exn) : bool :=
  match exn_type e with
  | RequestException | ConnectionError | Timeout => true
  | _ => false
  end.

(** ** The string methods the tool uses *)

Module PyStr.

(** [str.isspace] on one character: what [str.strip()] removes. *)
Definition isspace (c : ascii) : bool :=
  match c with
  | "009" | "010" | "011" | "012" | "013"
  | "028" | "029" | "030" | "031" | " " | "133" | "160" => true
  | _ => false
  end%char.

(** The blanks [int()] skips around a literal: the C [isspace] set, and
    the two blanks above 127. *)
Definition int_isspace (c : ascii) : bool :=
  match c with
  | "009" | "010" | "011" | "012" | "013" | " " | "133" | "160" => true
  | _ => false
  end%char.

Fixpoint lstrip_with (sp : ascii → bool) (s : string) : string :=
  match s with
  | "" => ""
  | String c s' => if sp c then lstrip_with sp s' else s
  end.

Definition rstrip_with (sp : ascii → bool) (s : string) : string :=
  String.rev (lstrip_with sp (String.rev s)).

Definition strip_with (sp : ascii → bool) (s : string) : string :=
  rstrip_with sp (lstrip_with sp s).

(** [s.strip()] *)
Definition strip : string → string := strip_with isspace.

(** [c in s] for a one-character [c] *)
Fixpoint contains (c : ascii) (s : string) : bool :=
  match s with
  | "" => false
  | String a s' => if decide (a = c) then true else contains c s'
  end.

(** [s.split(c)] for a one-character separator: always at least one
    piece, empty pieces are kept. *)
Fixpoint split (c : ascii) (s : string) : list string :=
  match s with
  | "" => [""]
  | String a s' =>
      if decide (a = c) then "" :: split c s'
      else match split c s' with
           | h :: t => String a h :: t
           | [] => [String a ""]
           end
  end.

(** [s.split(c, 1)]: cut at the first [c]; one piece when there is none. *)
Fixpoint split1 (c : ascii) (s : string) : list string :=
  match s with
  | "" => [""]
  | String a s' =>
      if decide (a = c) then [""; s']
      else match split1 c s' with
           | h :: t => String a h :: t
           | [] => [String a ""]
           end
  end.

(** [s.endswith(c)] for a one-character [c] *)
Fixpoint endswith (c : ascii) (s : string) : bool :=
  match s with
  | "" => false
  | String a "" => bool_decide (a = c)
  | String _ s' => endswith c s'
  end.

(** [s.lower()] *)
Definition lower_char (c : ascii) : ascii :=
  let n := N_of_ascii c in
  if ((65 <=? n) && (n <=? 90) ||
      (192 <=? n) && (n <=? 222) && negb (n =? 215))%N
  then ascii_of_N (n + 32) else c.

Fixpoint lower (s : string) : string :=
  match s with
  | "" => ""
  | String c s' => String (lower_char c) (lower s')
  end.

(** [sep.join(l)] *)
Fixpoint join (sep : string) (l : list string) : string :=
  match l with
  | [] => ""
  | [x] => x
  | x :: l' => x +:+ sep +:+ join sep l'
  end.

(** *** [int(s)] in base ten

    Blanks around the literal are skipped, one sign is allowed, and the
    digits may be grouped by single underscores that neither lead nor
    trail.  The interpreter's cap on the number of digits of a literal is
    not modelled. *)

Definition digit (c : ascii) : option Z :=
  Z.of_nat <$> Ascii.is_nat c.

(** [digits_go acc prev_us s]: read digits and underscores of [s] after
    the value [acc]; [prev_us] says that the character before was an
    underscore (or that nothing was read yet, where an underscore may not
    stand either). *)
Fixpoint digits_go (acc : Z) (prev_us : bool) (s : string) : option Z :=
  match s with
  | "" => if prev_us then None else Some acc
  | String c s' =>
      if decide (c = "_"%char) then
        if prev_us then None else digits_go acc true s'
      else
        match digit c with
        | Some d => digits_go (10 * acc + d) false s'
        | None => None
        end
  end.

Definition digits (s : string) : option Z := digits_go 0 true s.

Definition int_opt (s : string) : option Z :=
  match strip_with int_isspace s with
  | String "-" s' => Z.opp <$> digits s'
  | String "+" s' => digits s'
  | s' => digits s'
  end.

Definition invalid_literal (s : string) : exn :=
  Exn ValueError ("invalid literal for int() with base 10: '" +:+ s +:+ "'").

Definition int (s : string) : pyres Z :=
  match int_opt s with
  | Some n => Returned n
  | None => Raised (invalid_literal s)
  end.

(** [str(n)] and [repr] of a list of integers *)
Definition of_int (n : Z) : string := pretty n.

Definition of_int_list (l : list Z) : string :=
  "[" +:+ join ", " (of_int <$> l) +:+ "]".

End PyStr.

(** [range(start, stop)] *)
Definition py_range (start stop : Z) : list Z := seqZ start (stop - start).

(** [sorted(set(l))] on integers: [set] drops the repeats, [sorted] puts
    what is left in ascending order. *)
Definition py_set (l : list Z) : list Z := remove_dups l.
Definition py_sorted (l : list Z) : list Z := merge_sort Z.le l.

(** ** Port-list parser *)

(** One turn of the [for part in ports_str.split(",")] loop, on the list
    [ports] built so far. *)
Definition parse_ports_step (ports : list Z) (part : string) : pyres (list Z) :=
  let part := PyStr.strip part in
  if decide (part = "") then Returned ports
  else if PyStr.contains "-" part then
    match PyStr.split1 "-" part with
    | [start_s; end_s] =>
        start ← PyStr.int start_s;
        end_ ← PyStr.int end_s;
        let '(start, end_) :=
          if decide (start > end_) then (end_, start) else (start, end_) in
        Returned (ports ++ py_range start (end_ + 1))
    | _ => Raised (Exn ValueError "not enough values to unpack (expected 2, got 1)")
    end
  else
    n ← PyStr.int part; Returned (ports ++ [n]).

Fixpoint parse_ports_loop (ports : list Z) (parts : list string)
    : pyres (list Z) :=
  match parts with
  | [] => Returned ports
  | part :: parts' =>
      ports' ← parse_ports_step ports part; parse_ports_loop ports' parts'
  end.

Definition parse_ports (ports_str : string) : pyres (list Z) :=
  ports ← parse_ports_loop [] (PyStr.split "," ports_str);
  Returned (py_sorted (py_set ports)).

(** ** The [ipaddress] library, as far as the tool uses it

    An address is its integer value.  A network object carries the version,
    the network address (host bits already cleared, as [strict=False] leaves
    it) and the prefix length.  [hosts] follows the library: the two
    [hosts] generators and the overrides the constructors install for the
    two longest prefixes. *)

Module ipaddress.

Inductive version := IPv4 | IPv6.

Definition max_prefixlen (v : version) : Z :=
  match v with IPv4 => 32 | IPv6 => 128 end.

Definition ALL_ONES (v : version) : Z := 2 ^ max_prefixlen v - 1.

Record network := Network {
  net_version : version;
  network_address : Z;
  prefixlen : Z
}.

Definition netmask (n : network) : Z :=
  let ones := ALL_ONES (net_version n) in
  Z.lxor ones (Z.shiftr ones (prefixlen n)).

Definition hostmask (n : network) : Z :=
  Z.lxor (netmask n) (ALL_ONES (net_version n)).

Definition broadcast_address (n : network) : Z :=
  Z.lor (network_address n) (hostmask n).

(** [network.__iter__()] *)
Definition iter (n : network) : list Z :=
  py_range (network_address n) (broadcast_address n + 1).

(** [network.hosts()] *)
Definition hosts (n : network) : list Z :=
  if decide (prefixlen n = max_prefixlen (net_version n) - 1) then iter n
  else if decide (prefixlen n = max_prefixlen (net_version n)) then
    [network_address n]
  else
    match net_version n with
    | IPv4 => py_range (network_address n + 1) (broadcast_address n)
    | IPv6 => py_range (network_address n + 1) (broadcast_address n + 1)
    end.

(** What the library guarantees of a network object it has built. *)
Record wf (n : network) : Prop := {
  wf_prefixlen : 0 ≤ prefixlen n ≤ max_prefixlen (net_version n);
  wf_address : 0 ≤ network_address n ≤ ALL_ONES (net_version n);
  wf_host_bits : Z.land (network_address n) (hostmask n) = 0
}.

(** The two entry points that work on text: [ip_network(s, strict=False)]
    and [str] of an address of the given version. *)
Record lib := Lib {
  ip_network : string → pyres network;
  address_str : version → Z → string
}.

End ipaddress.

(** ** What a run leaves behind

    The log records, the tasks handed to the executor and the name lookups,
    in the order the main thread makes them.  A record written by a worker
    thread is placed where the collector picks that worker's future up. *)

Inductive level := DEBUG | INFO | WARNING | ERROR.

Inductive call :=
  | ping_host_call (host : string) (timeout : Z)
  | scan_port_call (host : string) (port : Z) (timeout : float)
  | check_http_url_call (url : string) (timeout : float).

Inductive event :=
  | Log (lvl : level) (msg : string)
  | Submit (c : call)
  | GetHostByName (host : string).

(** [except ValueError] *)
Definition isinstance_ValueError (e : exn) : bool :=
  match exn_type e with ValueError | UnicodeError => true | _ => false end.

(** ** The executor

    [submit_all fn targets] is the dictionary comprehension that builds
    [future_map]: one future per element of [targets], in that order, each
    bound to its target.  A future is modelled by what its task does: what
    [future.result()] hands back or raises, and for a task that writes to
    the log also what it wrote.  The task with index [i] sees the world
    through [fn i].

    [for_as_completed futures order body init] is the loop
    [for future in as_completed(future_map)], where [order] lists the
    indices of the futures in the order they complete. *)

Section executor.
Context {T F A : Type}.

Definition submit_all (fn : nat → T → F) (targets : list T) : list (T * F) :=
  imap (λ i t, (t, fn i t)) targets.

Definition for_as_completed (futures : list (T * F))
    (order : list nat) (body : A → T → F → A) (init : A) : A :=
  foldl (λ acc i,
           match futures !! i with
           | Some (t, r) => body acc t r
           | None => acc
           end) init order.
End executor.

(** [as_completed] hands every future back once: [order] is a rearrangement
    of the indices [0 .. n-1]. *)
Definition completion_order (n : nat) (order : list nat) : Prop :=
  order ≡ₚ seq 0 n.

(** [ThreadPoolExecutor(max_workers=...)] refuses a pool without workers. *)
Definition ThreadPoolExecutor (max_workers : Z) : pyres unit :=
  if decide (max_workers ≤ 0)
  then Raised (Exn ValueError "max_workers must be greater than 0")
  else Returned ().

(** ** Ping sweep *)

Record os := Os {
  platform_system : string;
  subprocess_run : list string → pyres Z   (* the return code *)
}.

Definition ping_host (w : os) (host : string) (timeout : Z) : bool :=
  let system := PyStr.lower (platform_system w) in
  let cmd :=
    if decide (system = "windows")
    then ["ping"; "-n"; "1"; "-w"; PyStr.of_int (timeout * 1000); host]
    else ["ping"; "-c"; "1"; "-W"; PyStr.of_int timeout; host] in
  match subprocess_run w cmd with
  | Returned returncode => bool_decide (returncode = 0)
  | Raised _ => false
  end.

(** The body of the collecting loop of both sweeps. *)
Definition ping_collect (acc : list string * list event) (host : string)
    (r : pyres bool) : list string * list event :=
  let '(live_hosts, tr) := acc in
  match r with
  | Returned true => (live_hosts ++ [host], tr ++ [Log INFO ("Host UP: " +:+ host)])
  | Returned false => (live_hosts, tr ++ [Log DEBUG ("Host DOWN: " +:+ host)])
  | Raised e =>
      (live_hosts,
       tr ++ [Log ERROR ("Error pinging " +:+ host +:+ ": " +:+ exn_str e)])
  end.

(** Both sweeps from [live_hosts = []] on. *)
Definition ping_pool (w : nat → os) (hosts : list string) (timeout : Z)
    (max_workers : Z) (order : list nat) (tr : list event)
    : pyres (list string) * list event :=
  match ThreadPoolExecutor max_workers with
  | Raised e => (Raised e, tr)
  | Returned _ =>
      let future_map :=
        submit_all (λ i host, Returned (ping_host (w i) host timeout)) hosts in
      let tr := tr ++ ((λ host, Submit (ping_host_call host timeout)) <$> hosts) in
      let '(live_hosts, tr) :=
        for_as_completed future_map order ping_collect ([], tr) in
      (Returned live_hosts,
       tr ++ [Log INFO ("Ping sweep complete. Live hosts: "
                        +:+ PyStr.of_int (Z.of_nat (length live_hosts)))])
  end.

(** The targets of [ping_sweep_cidr]: [[str(h) for h in network.hosts()]] *)
Definition cidr_hosts (l : ipaddress.lib) (network : ipaddress.network)
    : list string :=
  ipaddress.address_str l (ipaddress.net_version network)
    <$> ipaddress.hosts network.

Definition ping_sweep_cidr (l : ipaddress.lib) (w : nat → os) (cidr : string)
    (timeout max_workers : Z) (order : list nat)
    : pyres (list string) * list event :=
  match ipaddress.ip_network l cidr with
  | Raised e =>
      if isinstance_ValueError e
      then (Returned [],
            [Log ERROR ("Invalid CIDR " +:+ cidr +:+ ": " +:+ exn_str e)])
      else (Raised e, [])
  | Returned network =>
      let hosts := cidr_hosts l network in
      ping_pool w hosts timeout max_workers order
        [Log INFO ("Starting ping sweep for "
                   +:+ PyStr.of_int (Z.of_nat (length hosts))
                   +:+ " hosts in " +:+ cidr)]
  end.

(** The targets of [ping_sweep_range]:
    [[f"{base_network}{i}" for i in range(start, end + 1)]] *)
Definition range_hosts (base_network : string) (start end_ : Z) : list string :=
  (λ i, base_network +:+ PyStr.of_int i) <$> py_range start (end_ + 1).

Definition ping_sweep_range (w : nat → os) (base_network : string)
    (start end_ timeout max_workers : Z) (order : list nat)
    : pyres (list string) * list event :=
  if negb (PyStr.endswith "." base_network) then
    (Returned [],
     [Log ERROR "Base network must end with a dot, e.g., 192.168.1."])
  else
    let hosts := range_hosts base_network start end_ in
    ping_pool w hosts timeout max_workers order
      [Log INFO ("Starting ping sweep for "
                 +:+ PyStr.of_int (Z.of_nat (length hosts))
                 +:+ " hosts in " +:+ base_network
                 +:+ PyStr.of_int start +:+ "-" +:+ PyStr.of_int end_)].

(** ** Port scanner *)

(** The socket one call of [scan_port] works with: creating it, setting its
    timeout, and the connection attempt, which hands back an error code or
    raises. *)
Record sock := Sock {
  socket_new : pyres unit;
  settimeout : float → pyres unit;
  connect_ex : string → Z → pyres Z
}.

Definition scan_port (s : sock) (host : string) (port : Z) (timeout : float)
    : pyres bool :=
  _ ← socket_new s;
  _ ← settimeout s timeout;
  match connect_ex s host port with
  | Returned result => Returned (bool_decide (result = 0))
  | Raised _ => Returned false
  end.

Definition port_collect (target_ip : string) (acc : list Z * list event)
    (port : Z) (r : pyres bool) : list Z * list event :=
  let '(open_ports, tr) := acc in
  match r with
  | Returned true =>
      (open_ports ++ [port], tr ++ [Log INFO ("Port OPEN: " +:+ PyStr.of_int port)])
  | Returned false =>
      (open_ports, tr ++ [Log DEBUG ("Port CLOSED: " +:+ PyStr.of_int port)])
  | Raised e =>
      (open_ports,
       tr ++ [Log ERROR ("Error scanning port " +:+ PyStr.of_int port +:+ " on "
                         +:+ target_ip +:+ ": " +:+ exn_str e)])
  end.

Definition port_scan (gethostbyname : string → pyres string) (w : nat → sock)
    (host : string) (ports : list Z) (timeout : float) (max_workers : Z)
    (order : list nat) : pyres (list Z) * list event :=
  match gethostbyname host with
  | Raised e =>
      if isinstance_gaierror e
      then (Returned [],
            [GetHostByName host;
             Log ERROR ("Cannot resolve host " +:+ host +:+ ": " +:+ exn_str e)])
      else (Raised e, [GetHostByName host])
  | Returned target_ip =>
      let tr :=
        [GetHostByName host;
         Log INFO ("Starting port scan on " +:+ host +:+ " (" +:+ target_ip
                   +:+ ") for " +:+ PyStr.of_int (Z.of_nat (length ports))
                   +:+ " ports")] in
      match ThreadPoolExecutor max_workers with
      | Raised e => (Raised e, tr)
      | Returned _ =>
          let future_map :=
            submit_all (λ i port, scan_port (w i) target_ip port timeout) ports in
          let tr :=
            tr ++ ((λ port, Submit (scan_port_call target_ip port timeout))
                     <$> ports) in
          let '(open_ports, tr) :=
            for_as_completed future_map order (port_collect target_ip) ([], tr) in
          (Returned open_ports,
           tr ++ [Log INFO ("Port scan complete. Open ports: "
                            +:+ PyStr.of_int_list open_ports)])
      end
  end.

(** ** HTTP checker *)

(** [(url, accessible, status_code, error_message)] *)
Definition http_result : Type := string * bool * Z * string.

Definition result_url (r : http_result) : string := r.1.1.1.
Definition result_accessible (r : http_result) : bool := r.1.1.2.
Definition result_status (r : http_result) : Z := r.1.2.
Definition result_message (r : http_result) : string := r.2.

(** [requests_get url timeout] is what [requests.get(url, timeout=timeout)]
    does: it returns a response, of which the tool reads the status code
    only, or it raises. *)
Definition check_http_url (requests_get : string → float → pyres Z)
    (url : string) (timeout : float) : pyres http_result * list event :=
  match requests_get url timeout with
  | Returned status_code =>
      let accessible := bool_decide (status_code < 400) in
      (Returned (url, accessible, status_code, ""),
       [Log INFO ("HTTP " +:+ url +:+ " -> " +:+ PyStr.of_int status_code)])
  | Raised e =>
      if isinstance_RequestException e
      then (Returned (url, false, 0, exn_str e),
            [Log WARNING ("HTTP error for " +:+ url +:+ ": " +:+ exn_str e)])
      else (Raised e, [])
  end.

Definition http_collect (acc : list http_result * list event) (url : string)
    (r : pyres http_result * list event) : list http_result * list event :=
  let '(results, tr) := acc in
  match r.1 with
  | Returned result => (results ++ [result], tr ++ r.2)
  | Raised e =>
      (results,
       tr ++ r.2 ++ [Log ERROR ("Unhandled exception checking " +:+ url +:+ ": "
                                +:+ exn_str e)])
  end.

Definition http_check (w : nat → string → float → pyres Z) (urls : list string)
    (timeout : float) (max_workers : Z) (order : list nat)
    : pyres (list http_result) * list event :=
  let tr :=
    [Log INFO ("Starting HTTP checks for "
               +:+ PyStr.of_int (Z.of_nat (length urls)) +:+ " URLs")] in
  match ThreadPoolExecutor max_workers with
  | Raised e => (Raised e, tr)
  | Returned _ =>
      let future_map :=
        submit_all (λ i url, check_http_url (w i) url timeout) urls in
      let tr := tr ++ ((λ url, Submit (check_http_url_call url timeout)) <$> urls) in
      let '(results, tr) :=
        for_as_completed future_map order http_collect ([], tr) in
      (Returned results, tr ++ [Log INFO "HTTP checks complete"])
  end.

(** ** Logging setup

    The logger named [network_diag] is one object for the whole process:
    its level ([None] while it was never set) and its handlers.  A handler
    writes to the console or to a file and has a level of its own.  The
    format of a record (time stamp and level name before the message) is
    left out. *)

Inductive handler_kind :=
  | StreamHandler
  | FileHandler (log_file : string).

Record handler := Handler {
  handler_kind_of : handler_kind;
  handler_level : level
}.

Record logger := Logger {
  logger_level : option level;
  logger_handlers : list handler
}.

(** [logging.DEBUG] and so on *)
Definition levelno (l : level) : Z :=
  match l with DEBUG => 10 | INFO => 20 | WARNING => 30 | ERROR => 40 end.

(** [open_file log_file] is what opening the log file for appending does,
    which [logging.FileHandler(log_file)] does at once.  The logger is
    handed back as it is left, also when the file cannot be opened. *)
Definition setup_logger (open_file : string → pyres unit) (verbosity : Z)
    (log_file : string) (lg : logger) : pyres unit * logger :=
  let lg := Logger (Some DEBUG) (logger_handlers lg) in
  if decide (logger_handlers lg ≠ []) then (Returned (), lg)
  else
    let ch :=
      Handler StreamHandler
        (if decide (2 ≤ verbosity) then DEBUG
         else if decide (verbosity = 1) then INFO
         else WARNING) in
    match open_file log_file with
    | Raised e => (Raised e, lg)
    | Returned _ =>
        let fh := Handler (FileHandler log_file) DEBUG in
        (Returned (), Logger (Some DEBUG) (logger_handlers lg ++ [ch] ++ [fh]))
    end.

(** The handlers a record of level [lvl] is written by, as the [logging]
    library decides: the logger lets the record pass when it is at or above
    the logger's level (WARNING while none was set), and then each handler
    when it is at or above the handler's; a logger without any handler
    falls back on the library's handler of last resort, which writes
    warnings and errors to the console.  The root logger, to which the
    records are passed on, is given no handler by this program. *)
Definition handlers_for (lg : logger) (lvl : level) : list handler :=
  if decide (levelno (default WARNING (logger_level lg)) ≤ levelno lvl) then
    filter (λ h, levelno (handler_level h) ≤ levelno lvl)
      (if decide (logger_handlers lg = [])
       then [Handler StreamHandler WARNING] else logger_handlers lg)
  else [].

(** ** The command line

    The parser is [argparse]'s; [main] is modelled from the namespace it
    hands over: the two global options, and the options of the subcommand
    that was chosen ([None] for an option that was not given).  The calls
    to the outside are gathered in one record.  An interrupt from the
    keyboard, which may arrive at any moment, is not modelled. *)

Inductive subcommand :=
  | ping_sweep_args (cidr network : option string) (start end_ : option Z)
      (timeout : Z)
  | port_scan_args (host ports : string) (timeout : float)
  | http_check_args (urls : string) (timeout : float).

Record namespace := Namespace {
  verbose : Z;
  workers : Z;
  command : subcommand
}.

Record system := System {
  sys_ipaddress : ipaddress.lib;
  sys_os : nat → os;
  sys_gethostbyname : string → pyres string;
  sys_socket : nat → sock;
  sys_requests_get : nat → string → float → pyres Z;
  sys_open : string → pyres unit;
  sys_as_completed : list nat
}.

(** [logger.exception(f"Unhandled exception: {e}")] *)
Definition unhandled (e : exn) : event :=
  Log ERROR ("Unhandled exception: " +:+ exn_str e).

(** The line [main] prints for one result of the HTTP checker. *)
Definition http_line (r : http_result) : string :=
  let '(url, accessible, status_code, error) := r in
  if accessible then
    url +:+ " OK (status=" +:+ PyStr.of_int status_code +:+ ")"
  else if decide (status_code ≠ 0) then
    url +:+ " FAIL (status=" +:+ PyStr.of_int status_code +:+ ")"
  else
    url +:+ " ERROR (" +:+ error +:+ ")".

(** [[u.strip() for u in urls.split(",") if u.strip()]] *)
Definition split_urls (urls : string) : list string :=
  PyStr.strip <$> filter (λ u, PyStr.strip u ≠ "") (PyStr.split "," urls).

(** The [try] block of [main] with its handler for [Exception], and the
    [return 0] after it: the exit code, the lines printed, and the trace.
    Here the standard output takes every line; [main_try_stdout] below is
    the same block on an output that may refuse one. *)
Definition main_try (S : system) (args : namespace)
    : Z * list string * list event :=
  let finish {A} (print : A → string) (run : pyres (list A) * list event) :=
    match run with
    | (Returned l, tr) => (0, print <$> l, tr)
    | (Raised e, tr) => (1, [], tr ++ [unhandled e])
    end in
  match command args with
  | ping_sweep_args cidr network start end_ timeout =>
      if decide (default "" cidr ≠ "") then
        finish id
          (ping_sweep_cidr (sys_ipaddress S) (sys_os S) (default "" cidr)
             timeout (workers args) (sys_as_completed S))
      else
        match start, end_ with
        | Some start, Some end_ =>
            match network with
            | Some network =>
                finish id
                  (ping_sweep_range (sys_os S) network start end_ timeout
                     (workers args) (sys_as_completed S))
            | None =>
                (1, [],
                 [Log ERROR "Unhandled exception: 'NoneType' object has no attribute 'endswith'"])
            end
        | _, _ =>
            (1, [],
             [Log ERROR "--start and --end are required when using --network"])
        end
  | port_scan_args host ports timeout =>
      match parse_ports ports with
      | Raised e => (1, [], [unhandled e])
      | Returned ports =>
          if decide (ports = []) then
            (1, [], [Log ERROR "No valid ports specified"])
          else
            finish PyStr.of_int
              (port_scan (sys_gethostbyname S) (sys_socket S) host ports
                 timeout (workers args) (sys_as_completed S))
      end
  | http_check_args urls timeout =>
      let urls := split_urls urls in
      if decide (urls = []) then
        (1, [], [Log ERROR "No valid URLs specified"])
      else
        finish http_line
          (http_check (sys_requests_get S) urls timeout (workers args)
             (sys_as_completed S))
  end.

(** [main], after [parse_args]: the logger is set up before the [try], so
    a log file that cannot be opened ends [main] with the exception. *)
Definition main (S : system) (args : namespace) (lg : logger)
    : pyres (Z * list string * list event) * logger :=
  match setup_logger (sys_open S) (verbose args) "network_diag.log" lg with
  | (Raised e, lg) => (Raised e, lg)
  | (Returned _, lg) => (Returned (main_try S args), lg)
  end.

(** [print(line)] for each line in turn, the calls being counted from
    [k]: [stdout k line] is what the [k]-th call of [print] does.  It may
    raise, [UnicodeEncodeError] on an output that cannot encode the line or
    [BrokenPipeError] on a pipe that was closed, and the loop ends there.
    The lines written, and the exception that ended the loop, if any. *)
Fixpoint print_lines (stdout : nat → string → pyres unit) (k : nat)
    (lines : list string) : list string * option exn :=
  match lines with
  | [] => ([], None)
  | line :: lines' =>
      match stdout k line with
      | Raised e => ([], Some e)
      | Returned _ =>
          let '(written, e) := print_lines stdout (S k) lines' in
          (line :: written, e)
      end
  end.

(** The [try] block of [main] on any standard output.  The loops that
    print are inside the [try]: an exception of [print] is handled like
    one of the command, by the record [Unhandled exception: ...] and the
    exit code 1, after the lines before it were written. *)
Definition main_try_stdout (stdout : nat → string → pyres unit) (S : system)
    (args : namespace) : Z * list string * list event :=
  let finish {A} (line : A → string) (run : pyres (list A) * list event) :=
    match run with
    | (Returned l, tr) =>
        match print_lines stdout 0 (line <$> l) with
        | (written, None) => (0, written, tr)
        | (written, Some e) => (1, written, tr ++ [unhandled e])
        end
    | (Raised e, tr) => (1, [], tr ++ [unhandled e])
    end in
  match command args with
  | ping_sweep_args cidr network start end_ timeout =>
      if decide (default "" cidr ≠ "") then
        finish id
          (ping_sweep_cidr (sys_ipaddress S) (sys_os S) (default "" cidr)
             timeout (workers args) (sys_as_completed S))
      else
        match start, end_ with
        | Some start, Some end_ =>
            match network with
            | Some network =>
                finish id
                  (ping_sweep_range (sys_os S) network start end_ timeout
                     (workers args) (sys_as_completed S))
            | None =>
                (1, [],
                 [Log ERROR "Unhandled exception: 'NoneType' object has no attribute 'endswith'"])
            end
        | _, _ =>
            (1, [],
             [Log ERROR "--start and --end are required when using --network"])
        end
  | port_scan_args host ports timeout =>
      match parse_ports ports with
      | Raised e => (1, [], [unhandled e])
      | Returned ports =>
          if decide (ports = []) then
            (1, [], [Log ERROR "No valid ports specified"])
          else
            finish PyStr.of_int
              (port_scan (sys_gethostbyname S) (sys_socket S) host ports
                 timeout (workers args) (sys_as_completed S))
      end
  | http_check_args urls timeout =>
      let urls := split_urls urls in
      if decide (urls = []) then
        (1, [], [Log ERROR "No valid URLs specified"])
      else
        finish http_line
          (http_check (sys_requests_get S) urls timeout (workers args)
             (sys_as_completed S))
  end.

(** ** A stand-in world for running the model

    The library and system calls are arguments of the model.  The worlds
    below give them concrete answers, so that the functions can be run on
    examples. *)

Module World.

(** An unsigned decimal numeral of at most [maxlen] digits. *)
Definition numeral (maxlen : nat) (s : string) : option Z :=
  if bool_decide (0 < String.length s ≤ maxlen)%nat && negb (PyStr.contains "_" s)
  then PyStr.digits_go 0 false s else None.

(** The value of the four octets of [a.b.c.d]. *)
Definition dotted_quad (s : string) : option Z :=
  match PyStr.split "." s with
  | [a; b; c; d] =>
      a ← numeral 3 a; b ← numeral 3 b; c ← numeral 3 c; d ← numeral 3 d;
      if bool_decide (a ≤ 255 ∧ b ≤ 255 ∧ c ≤ 255 ∧ d ≤ 255)
      then Some (((a * 256 + b) * 256 + c) * 256 + d) else None
  | _ => None
  end.

(** Reads [a.b.c.d/p] and [a.b.c.d] only, and clears the host bits. *)
Definition ip4_network (s : string) : pyres ipaddress.network :=
  let bad :=
    Raised (Exn ValueError
              ("'" +:+ s +:+ "' does not appear to be an IPv4 or IPv6 network")) in
  let mk a p :=
    let n := ipaddress.Network ipaddress.IPv4 a p in
    Returned (ipaddress.Network ipaddress.IPv4 (Z.land a (ipaddress.netmask n)) p) in
  match PyStr.split "/" s with
  | [a] => match dotted_quad a with Some a => mk a 32 | None => bad end
  | [a; p] =>
      match dotted_quad a, numeral 2 p with
      | Some a, Some p => if decide (p ≤ 32) then mk a p else bad
      | _, _ => bad
      end
  | _ => bad
  end.

(** The four octets of an address, most significant first. *)
Definition ip4_str (a : Z) : string :=
  PyStr.join "." (PyStr.of_int <$>
    [Z.shiftr a 24; Z.land (Z.shiftr a 16) 255; Z.land (Z.shiftr a 8) 255;
     Z.land a 255]).

(** The library, for IPv4 networks written with a prefix length. *)
Definition ip4 : ipaddress.lib :=
  ipaddress.Lib ip4_network (λ _ a, ip4_str a).

(** A machine on which [ping] answers exactly the hosts of [up]. *)
Definition linux (up : list string) : os :=
  Os "Linux" (λ cmd,
    match last cmd with
    | Some host => Returned (if decide (host ∈ up) then 0 else 1)
    | None => Returned 2
    end).

(** A socket whose connection attempt succeeds on the ports of [listening]
    and is refused (errno 111) elsewhere; like the system's, it rejects a
    negative timeout. *)
Definition tcp (listening : list Z) : sock :=
  Sock (Returned ())
       (λ t, if PrimFloat.ltb t 0%float
             then Raised (Exn ValueError "Timeout value out of range")
             else Returned ())
       (λ _ port, Returned (if decide (port ∈ listening) then 0 else 111)).

(** A name service that knows the names of [known], each with its
    address, and no other. *)
Definition resolver (known : list (string * string)) (host : string)
    : pyres string :=
  match list_find (λ kv, kv.1 = host) known with
  | Some (_, (_, ip)) => Returned ip
  | None => Raised (Exn gaierror "[Errno -2] Name or service not known")
  end.

(** An HTTP client: the sites of [sites] answer with their status code,
    any other URL fails to connect, and, like the library, it refuses a
    timeout that is not positive with a [ValueError]. *)
Definition http (sites : list (string * Z)) (url : string) (timeout : float)
    : pyres Z :=
  if PrimFloat.leb timeout 0%float then
    Raised (Exn ValueError
              "the timeout cannot be set to a value less than or equal to 0")
  else
    match list_find (λ kv, kv.1 = url) sites with
    | Some (_, (_, status)) => Returned status
    | None => Raised (Exn ConnectionError "Max retries exceeded")
    end.

(** A standard output that takes [n] lines and is a broken pipe from then
    on. *)
Definition pipe (n : nat) (k : nat) (line : string) : pyres unit :=
  if decide (k < n)%nat then Returned ()
  else Raised (Exn OSError "[Errno 32] Broken pipe").

End World.

(** * Notions the properties are stated with *)

(** The tokens of a specification: the pieces between commas, blanks
    stripped, empty ones dropped. *)
Definition port_tokens (ports_str : string) : list string :=
  filter (λ t, t ≠ "") (PyStr.strip <$> PyStr.split "," ports_str).

(** What one token stands for, in the words of the specification: a single
    integer [n] is the range from [n] to [n]; [a-b] is the range between the
    integers [a] and [b], whichever is the smaller; anything else is not a
    token. *)
Definition token_range (t : string) : option (Z * Z) :=
  if PyStr.contains "-" t then
    match PyStr.split1 "-" t with
    | [a; b] =>
        x ← PyStr.int_opt a; y ← PyStr.int_opt b; Some (Z.min x y, Z.max x y)
    | _ => None
    end
  else n ← PyStr.int_opt t; Some (n, n).

(** The ports a list of tokens stands for. *)
Definition in_tokens (toks : list string) (p : Z) : Prop :=
  ∃ t lo hi, t ∈ toks ∧ token_range t = Some (lo, hi) ∧ lo ≤ p ≤ hi.

(** The tokens among pieces already cut at the commas. *)
Definition parts_tokens (parts : list string) : list string :=
  filter (λ t, t ≠ "") (PyStr.strip <$> parts).

(** Every character of [s] satisfies [P]. *)
Fixpoint all_chars (P : ascii → bool) (s : string) : bool :=
  match s with
  | "" => true
  | String c s' => P c && all_chars P s'
  end.

(** One of the characters [0] to [9]. *)
Definition is_digit (c : ascii) : bool := bool_decide (is_Some (Ascii.is_nat c)).

(** The futures in the order [as_completed] hands them back. *)
Definition completed {T F} (futures : list (T * F)) (order : list nat)
    : list (T * F) :=
  omap (futures !!.) order.

(** The tasks a trace hands to the executor, in order. *)
Definition submitted (tr : list event) : list call :=
  omap (λ e, match e with Submit c => Some c | _ => None end) tr.

(** The names a trace looks up, in order. *)
Definition lookups (tr : list event) : list string :=
  omap (λ e, match e with GetHostByName h => Some h | _ => None end) tr.

(** A log record, as opposed to a submission or a name lookup. *)
Definition is_log (e : event) : bool :=
  match e with Log _ _ => true | _ => false end.

(** What one turn of the collecting loop of a sweep appends to
    [live_hosts], and what it writes to the log. *)
Definition ping_kept (host : string) (r : pyres bool) : list string :=
  match r with Returned true => [host] | _ => [] end.

Definition ping_logged (host : string) (r : pyres bool) : list event :=
  match r with
  | Returned true => [Log INFO ("Host UP: " +:+ host)]
  | Returned false => [Log DEBUG ("Host DOWN: " +:+ host)]
  | Raised e => [Log ERROR ("Error pinging " +:+ host +:+ ": " +:+ exn_str e)]
  end.

(** The number of hosts of a network, as [hosts] enumerates them. *)
Definition host_count (n : ipaddress.network) : Z :=
  let m := ipaddress.max_prefixlen (ipaddress.net_version n) in
  let p := ipaddress.prefixlen n in
  if decide (p = m) then 1
  else if decide (p = m - 1) then 2
  else match ipaddress.net_version n with
       | ipaddress.IPv4 => 2 ^ (m - p) - 2
       | ipaddress.IPv6 => 2 ^ (m - p) - 1
       end.

(** The first host of a network, as [hosts] enumerates them. *)
Definition first_host (n : ipaddress.network) : Z :=
  if decide (ipaddress.max_prefixlen (ipaddress.net_version n) - 1
             ≤ ipaddress.prefixlen n)
  then ipaddress.network_address n
  else ipaddress.network_address n + 1.

(** The last host of a network, as [hosts] enumerates them. *)
Definition last_host (n : ipaddress.network) : Z :=
  if decide (ipaddress.max_prefixlen (ipaddress.net_version n) - 1
             ≤ ipaddress.prefixlen n)
  then ipaddress.broadcast_address n
  else match ipaddress.net_version n with
       | ipaddress.IPv4 => ipaddress.broadcast_address n - 1
       | ipaddress.IPv6 => ipaddress.broadcast_address n
       end.

(** What one turn of the collecting loop of the scan appends to
    [open_ports], and what it writes to the log. *)
Definition port_kept (port : Z) (r : pyres bool) : list Z :=
  match r with Returned true => [port] | _ => [] end.

Definition port_logged (target_ip : string) (port : Z) (r : pyres bool)
    : list event :=
  match r with
  | Returned true => [Log INFO ("Port OPEN: " +:+ PyStr.of_int port)]
  | Returned false => [Log DEBUG ("Port CLOSED: " +:+ PyStr.of_int port)]
  | Raised e =>
      [Log ERROR ("Error scanning port " +:+ PyStr.of_int port +:+ " on "
                  +:+ target_ip +:+ ": " +:+ exn_str e)]
  end.

(** What one turn of the collecting loop of the checker appends to
    [results], and what reaches the log: the records of the worker, and the
    collector's own when the worker raised. *)
Definition http_kept (url : string) (r : pyres http_result * list event)
    : list http_result :=
  match r.1 with Returned result => [result] | Raised _ => [] end.

Definition http_logged (url : string) (r : pyres http_result * list event)
    : list event :=
  match r.1 with
  | Returned _ => r.2
  | Raised e =>
      r.2 ++ [Log ERROR ("Unhandled exception checking " +:+ url +:+ ": "
                         +:+ exn_str e)]
  end.

(** What [future.result()] hands back, if it does. *)
Definition returned {A} (r : pyres A) : option A :=
  match r with Returned a => Some a | Raised _ => None end.

(** What the probe of each URL does, in the order of the input. *)
Definition http_outcomes (w : nat → string → float → pyres Z)
    (urls : list string) (timeout : float) : list (pyres http_result) :=
  imap (λ i url, (check_http_url (w i) url timeout).1) urls.

(** [result] is what the futures contribute in the order they completed:
    a rearrangement of what they contribute in the order of submission, and
    equal to it when they complete in that order. *)
Definition in_completion_order {T F X} (order : list nat)
    (futures : list (T * F)) (kept : T → F → list X)
    (result : pyres (list X)) : Prop :=
  result = Returned (completed futures order ≫= uncurry kept) ∧
  (completion_order (length futures) order →
     ∃ l, result = Returned l ∧ l ≡ₚ futures ≫= uncurry kept) ∧
  (order = seq 0 (length futures) →
     result = Returned (futures ≫= uncurry kept)).

(** The log records of a trace, in order. *)
Definition log_records (tr : list event) : list (level * string) :=
  omap (λ e, match e with Log lvl msg => Some (lvl, msg) | _ => None end) tr.

(** The handlers that write to the console, and those that write to a
    file. *)
Definition to_console (h : handler) : bool :=
  match handler_kind_of h with StreamHandler => true | FileHandler _ => false end.

Definition to_file (h : handler) : bool :=
  match handler_kind_of h with StreamHandler => false | FileHandler _ => true end.

(** The records of a trace as the handlers of one sort write them: each
    record once for every such handler it reaches. *)
Definition written (lg : logger) (sort : handler → bool) (tr : list event)
    : list (level * string) :=
  log_records tr ≫= λ r,
    (λ _, r) <$> filter (λ h, sort h = true) (handlers_for lg r.1).

(** The level of the console handler for a verbosity. *)
Definition console_level (verbosity : Z) : level :=
  if decide (2 ≤ verbosity) then DEBUG
  else if decide (verbosity = 1) then INFO
  else WARNING.

(** The error records of a trace. *)
Definition error_records (tr : list event) : list string :=
  omap (λ e, match e with Log ERROR msg => Some msg | _ => None end) tr.

(** A machine to run [main] on: [10.0.0.1] answers pings, [localhost]
    resolves and listens on port 22, [http://a] answers 200 and [http://b]
    answers 404, the log file can be opened, and probes complete in the
    order given. *)
Definition sample_system (order : list nat) : system :=
  System World.ip4 (λ _, World.linux ["10.0.0.1"])
    (World.resolver [("localhost", "127.0.0.1")]) (λ _, World.tcp [22])
    (λ _, World.http [("http://a", 200); ("http://b", 404)])
    (λ _, Returned ()) order.

(** A run of one of the four entry points that ended before the pool had
    any task: nothing was submitted, and the result is an exception or,
    where the targets were refused, an empty list. *)
Definition stopped_early {A} (run : pyres (list A) * list event) : Prop :=
  submitted run.2 = [] ∧ (run.1 = Returned [] ∨ ∃ e, run.1 = Raised e).

(** * Properties *)

(** ** The model at work *)

Example split_ex :
  PyStr.split "," "" = [""] ∧ PyStr.split "," "a,,b" = ["a"; ""; "b"] ∧
  PyStr.split1 "-" "1-2-3" = ["1"; "2-3"] ∧ PyStr.split1 "-" "-5" = [""; "5"] ∧
  PyStr.split1 "-" "15" = ["15"].
Proof. repeat split; reflexivity. Qed.

Example strip_ex :
  PyStr.strip (String "028" " 5 " +:+ String "031" "") = "5" ∧
  PyStr.strip "  " = "" ∧ PyStr.strip " 1 - 2 " = "1 - 2".
Proof. repeat split; reflexivity. Qed.

Example int_ex :
  PyStr.int_opt " 5 " = Some 5 ∧ PyStr.int_opt "+5" = Some 5 ∧
  PyStr.int_opt "-5" = Some (-5) ∧ PyStr.int_opt "1_000" = Some 1000 ∧
  PyStr.int_opt "007" = Some 7 ∧ PyStr.int_opt (String "160" "5") = Some 5 ∧
  PyStr.int_opt "" = None ∧ PyStr.int_opt "+" = None ∧
  PyStr.int_opt "- 5" = None ∧ PyStr.int_opt "+-5" = None ∧
  PyStr.int_opt "_1" = None ∧ PyStr.int_opt "1_" = None ∧
  PyStr.int_opt "1__0" = None ∧ PyStr.int_opt "0x10" = None ∧
  PyStr.int_opt (String "028" "5") = None ∧ PyStr.int_opt "2-3" = None.
Proof. repeat split; reflexivity. Qed.

Example of_int_ex :
  PyStr.of_int 0 = "0" ∧ PyStr.of_int 65536 = "65536" ∧
  PyStr.of_int (-12) = "-12" ∧ PyStr.of_int_list [22; 80] = "[22, 80]" ∧
  PyStr.of_int_list [] = "[]".
Proof. repeat split; reflexivity. Qed.

Example parse_ports_ex1 :
  parse_ports "22,80,1000-1002,1000" = Returned [22; 80; 1000; 1001; 1002].
Proof. vm_compute. reflexivity. Qed.

Example parse_ports_ex2 : parse_ports " 8-5 ,, +3 , 1_0" = Returned [3; 5; 6; 7; 8; 10].
Proof. vm_compute. reflexivity. Qed.

Example parse_ports_ex3 : is_returned (parse_ports "-5") = false.
Proof. vm_compute. reflexivity. Qed.

Example ip4_network_ex :
  World.ip4_network "10.0.0.5/30"
  = Returned (ipaddress.Network ipaddress.IPv4 167772164 30).
Proof. vm_compute. reflexivity. Qed.

Example cidr_hosts_ex30 :
  cidr_hosts World.ip4 (ipaddress.Network ipaddress.IPv4 167772164 30)
  = ["10.0.0.5"; "10.0.0.6"].
Proof. vm_compute. reflexivity. Qed.

Example ping_sweep_cidr_ex :
  (ping_sweep_cidr World.ip4 (λ _, World.linux ["10.0.0.6"]) "10.0.0.5/30" 1 64 [1; 0]%nat).1
  = Returned ["10.0.0.6"].
Proof. vm_compute. reflexivity. Qed.

Example ping_host_ex :
  ping_host (World.linux ["10.0.0.6"]) "10.0.0.6" 1 = true ∧
  ping_host (World.linux ["10.0.0.6"]) "10.0.0.7" 1 = false ∧
  ping_host (Os "Windows" (λ cmd, Raised (Exn OSError "ping not found")))
    "10.0.0.6" 1 = false.
Proof. repeat split; reflexivity. Qed.

Example scan_port_ex :
  scan_port (World.tcp [80]) "127.0.0.1" 80 1%float = Returned true ∧
  scan_port (World.tcp [80]) "127.0.0.1" 81 1%float = Returned false ∧
  scan_port (Sock (Returned ()) (λ _, Returned ())
               (λ _ _, Raised (Exn OverflowError "port must be 0-65535.")))
    "127.0.0.1" 99999 1%float = Returned false ∧
  scan_port (Sock (Raised (Exn OSError "[Errno 24] Too many open files"))
               (λ _, Returned ()) (λ _ _, Returned 0))
    "127.0.0.1" 80 1%float
  = Raised (Exn OSError "[Errno 24] Too many open files").
Proof. repeat split; by vm_compute. Qed.

Example port_scan_ex :
  (port_scan (World.resolver [("localhost", "127.0.0.1")]) (λ _, World.tcp [22])
     "localhost" [22; 9999] 1%float 64 [0; 1]%nat).1
  = Returned [22].
Proof. vm_compute. reflexivity. Qed.

Example http_check_ex :
  (http_check (λ _, World.http [("http://a", 200); ("http://b", 404)])
     ["http://a"; "http://b"; "http://c"] 5%float 64 [2; 0; 1]%nat).1
  = Returned [("http://c", false, 0, "Max retries exceeded");
              ("http://a", true, 200, ""); ("http://b", false, 404, "")].
Proof. vm_compute. reflexivity. Qed.

(** ** The port-list parser *)

Lemma py_range_one n : py_range n (n + 1) = [n].
Proof.
  unfold py_range. replace (n + 1 - n) with 1 by lia.
  by rewrite seqZ_cons, seqZ_nil by lia.
Qed.

Lemma parse_ports_step_spec ports part :
  let t := PyStr.strip part in
  if decide (t = "") then parse_ports_step ports part = Returned ports
  else match token_range t with
       | Some (lo, hi) =>
           parse_ports_step ports part = Returned (ports ++ py_range lo (hi + 1))
       | None =>
           ∃ e, parse_ports_step ports part = Raised e ∧ exn_type e = ValueError
       end.
Proof.
  intros t. unfold parse_ports_step, token_range. fold t.
  destruct (decide (t = "")) as [|Hne]; [done|].
  destruct (PyStr.contains "-" t).
  - destruct (PyStr.split1 "-" t) as [|a [|b [|? ?]]]; simpl; eauto.
    unfold PyStr.int.
    destruct (PyStr.int_opt a) as [x|]; simpl; [|eauto].
    destruct (PyStr.int_opt b) as [y|]; simpl; [|eauto].
    destruct (decide (x > y)).
    + by rewrite Z.min_r, Z.max_l by lia.
    + by rewrite Z.min_l, Z.max_r by lia.
  - unfold PyStr.int. destruct (PyStr.int_opt t); simpl; eauto.
    by rewrite py_range_one.
Qed.

Lemma in_tokens_nil p : ¬ in_tokens [] p.
Proof. intros (t & ? & ? & Ht & _). by apply elem_of_nil in Ht. Qed.

Lemma in_tokens_cons t toks p :
  in_tokens (t :: toks) p ↔
    (∃ lo hi, token_range t = Some (lo, hi) ∧ lo ≤ p ≤ hi) ∨ in_tokens toks p.
Proof.
  unfold in_tokens. split.
  - intros (t' & lo & hi & [->|Ht]%elem_of_cons & ? & ?); [left|right];
      eauto 6.
  - intros [(lo & hi & ? & ?)|(t' & lo & hi & ? & ? & ?)].
    + exists t, lo, hi. split; [left|]; done.
    + exists t', lo, hi. split; [by right|]; done.
Qed.

Lemma parts_tokens_cons part parts :
  parts_tokens (part :: parts) =
    if decide (PyStr.strip part = "") then parts_tokens parts
    else PyStr.strip part :: parts_tokens parts.
Proof.
  unfold parts_tokens. rewrite fmap_cons, filter_cons.
  destruct (decide (PyStr.strip part = "")), (decide (PyStr.strip part ≠ ""));
    done.
Qed.

(** The loop, by induction on the pieces still to read. *)
Lemma parse_ports_loop_spec parts : ∀ ports,
  match parse_ports_loop ports parts with
  | Returned ps =>
      Forall (λ t, is_Some (token_range t)) (parts_tokens parts) ∧
      ∀ p, p ∈ ps ↔ p ∈ ports ∨ in_tokens (parts_tokens parts) p
  | Raised e =>
      exn_type e = ValueError ∧
      Exists (λ t, token_range t = None) (parts_tokens parts)
  end.
Proof.
  induction parts as [|part parts IH]; intros ports; simpl.
  - split; [constructor|]. intros p. pose proof (in_tokens_nil p). tauto.
  - rewrite parts_tokens_cons.
    pose proof (parse_ports_step_spec ports part) as Hstep. simpl in Hstep.
    destruct (decide (PyStr.strip part = "")) as [|Hne].
    + rewrite Hstep. simpl. apply IH.
    + destruct (token_range (PyStr.strip part)) as [[lo hi]|] eqn:Htok.
      * rewrite Hstep. simpl.
        specialize (IH (ports ++ py_range lo (hi + 1))).
        destruct (parse_ports_loop _ parts) as [ps|e].
        -- destruct IH as [Hall Hin]. split.
           { constructor; [by rewrite Htok|done]. }
           intros p. rewrite Hin, elem_of_app, in_tokens_cons.
           unfold py_range. rewrite elem_of_seqZ, Htok.
           split; [intros [[?|?]|?]|intros [?|[(lo' & hi' & [= <- <-] & ?)|?]]];
             eauto; try (left; right; lia).
           right. left. exists lo, hi. split; [done|lia].
        -- destruct IH as [? ?]. split; [done|]. by apply Exists_cons_tl.
      * destruct Hstep as (e & -> & He). simpl. split; [done|].
        by apply Exists_cons_hd.
Qed.

Lemma StronglySorted_le_lt (l : list Z) :
  StronglySorted Z.le l → NoDup l → StronglySorted Z.lt l.
Proof.
  induction 1 as [|x l Hs IH Hx]; intros Hnd; [constructor|].
  apply NoDup_cons in Hnd as [Hx' Hnd]. constructor; [by apply IH|].
  rewrite Forall_forall in *. intros y Hy.
  assert (x ≠ y) by (intros ->; done). specialize (Hx y Hy). lia.
Qed.

Lemma sorted_set_sorted l : StronglySorted Z.lt (py_sorted (py_set l)).
Proof.
  unfold py_sorted, py_set. apply StronglySorted_le_lt.
  - apply (StronglySorted_merge_sort _).
  - rewrite merge_sort_Permutation. apply NoDup_remove_dups.
Qed.

Lemma sorted_set_NoDup l : NoDup (py_sorted (py_set l)).
Proof.
  unfold py_sorted, py_set. rewrite merge_sort_Permutation.
  apply NoDup_remove_dups.
Qed.

Lemma sorted_set_elem_of l p : p ∈ py_sorted (py_set l) ↔ p ∈ l.
Proof.
  unfold py_sorted, py_set.
  by rewrite merge_sort_Permutation, elem_of_remove_dups.
Qed.

(** What [parse_ports] returns, and when it raises. *)
Lemma parse_ports_cases ports_str :
  match parse_ports ports_str with
  | Returned ps =>
      Forall (λ t, is_Some (token_range t)) (port_tokens ports_str) ∧
      StronglySorted Z.lt ps ∧ NoDup ps ∧
      ∀ p, p ∈ ps ↔ in_tokens (port_tokens ports_str) p
  | Raised e =>
      exn_type e = ValueError ∧
      Exists (λ t, token_range t = None) (port_tokens ports_str)
  end.
Proof.
  unfold parse_ports.
  pose proof (parse_ports_loop_spec (PyStr.split "," ports_str) []) as H.
  destruct (parse_ports_loop _ _) as [ps|e]; simpl; [|done].
  destruct H as [Hall Hin]. split; [done|]. split; [apply sorted_set_sorted|].
  split; [apply sorted_set_NoDup|]. intros p. rewrite sorted_set_elem_of, Hin. rewrite elem_of_nil. tauto.
Qed.

(** *** Decimal numerals: [int(str(n)) = n] *)

Lemma string_app_nil_r (s : string) : s +:+ "" = s.
Proof.
  induction s as [|a s IH]; [done|].
  change (String a (s +:+ "") = String a s). by rewrite IH.
Qed.

Lemma rev_app_rev_app s1 : ∀ s2 s3,
  String.rev_app (String.rev_app s1 s2) s3 = String.rev_app s2 (s1 +:+ s3).
Proof.
  induction s1 as [|a s1 IH]; intros s2 s3; simpl; [done|]. by rewrite IH.
Qed.

Lemma string_rev_involutive s : String.rev (String.rev s) = s.
Proof.
  unfold String.rev. rewrite rev_app_rev_app. simpl. apply string_app_nil_r.
Qed.

Lemma all_chars_rev_app P s1 : ∀ s2,
  all_chars P (String.rev_app s1 s2) = all_chars P s1 && all_chars P s2.
Proof.
  induction s1 as [|a s1 IH]; intros s2; simpl; [done|].
  rewrite IH. simpl. by destruct (P a), (all_chars P s1).
Qed.

Lemma all_chars_rev P s : all_chars P (String.rev s) = all_chars P s.
Proof. unfold String.rev. rewrite all_chars_rev_app. simpl. apply andb_true_r. Qed.

Section digit_strings.
Variable sp : ascii → bool.
Hypothesis sp_digit : ∀ c, is_digit c = true → sp c = false.

Lemma lstrip_with_digits s :
  all_chars is_digit s = true → PyStr.lstrip_with sp s = s.
Proof.
  destruct s as [|c s]; simpl; [done|].
  intros [Hc _]%andb_true_iff. by rewrite sp_digit.
Qed.

Lemma strip_with_digits s :
  all_chars is_digit s = true → PyStr.strip_with sp s = s.
Proof.
  intros Hs. unfold PyStr.strip_with, PyStr.rstrip_with.
  rewrite (lstrip_with_digits s) by done.
  rewrite lstrip_with_digits by (by rewrite all_chars_rev).
  apply string_rev_involutive.
Qed.
End digit_strings.

Section not_a_digit.
Variable c : ascii.
Hypothesis c_not_digit : is_digit c = false.

Lemma contains_digits s :
  all_chars is_digit s = true → PyStr.contains c s = false.
Proof.
  induction s as [|a s IH]; simpl; [done|].
  intros [Ha Hs]%andb_true_iff.
  destruct (decide (a = c)) as [->|]; [congruence|by apply IH].
Qed.

Lemma split_digits s :
  all_chars is_digit s = true → PyStr.split c s = [s].
Proof.
  induction s as [|a s IH]; simpl; [done|].
  intros [Ha Hs]%andb_true_iff.
  destruct (decide (a = c)) as [->|]; [congruence|by rewrite IH].
Qed.
End not_a_digit.

Lemma digit_pretty_N_char (d : N) :
  (d < 10)%N →
  PyStr.digit (pretty_N_char d) = Some (Z.of_N d) ∧
  is_digit (pretty_N_char d) = true ∧
  pretty_N_char d ≠ "_"%char.
Proof.
  intros Hd.
  assert (d ∈ [0; 1; 2; 3; 4; 5; 6; 7; 8; 9]%N) as Hin.
  { assert (∃ k : nat, d = N.of_nat k ∧ (k < 10)%nat) as (k & -> & Hk)
      by (exists (N.to_nat d); lia).
    do 10 (destruct k as [|k]; [set_solver|]). lia. }
  repeat (apply elem_of_cons in Hin as [->|Hin]; [by vm_compute|]).
  by apply elem_of_nil in Hin.
Qed.

Lemma pretty_N_go_all_digits (x : N) : ∀ s,
  all_chars is_digit s = true → all_chars is_digit (pretty_N_go x s) = true.
Proof.
  induction x as [x IH] using (well_founded_ind N.lt_wf_0). intros s Hs.
  destruct (decide (x = 0)%N) as [->|Hx]; [by rewrite pretty_N_go_0|].
  rewrite pretty_N_go_step by lia. apply IH.
  - apply N.div_lt; lia.
  - simpl. rewrite Hs.
    by destruct (digit_pretty_N_char (x `mod` 10)%N) as (_ & -> & _);
      [apply N.mod_lt|].
Qed.

Lemma pretty_N_go_value (x : N) :
  (0 < x)%N → ∀ s, ∃ k : Z, 0 ≤ k ∧ ∀ acc b,
    PyStr.digits_go acc b (pretty_N_go x s)
    = PyStr.digits_go (acc * 10 ^ k + Z.of_N x) false s.
Proof.
  induction x as [x IH] using (well_founded_ind N.lt_wf_0). intros Hx s.
  rewrite pretty_N_go_step by done.
  destruct (digit_pretty_N_char (x `mod` 10)%N) as (Hd & _ & Hus);
    [by apply N.mod_lt|].
  assert (Z.of_N x = 10 * Z.of_N (x `div` 10)%N + Z.of_N (x `mod` 10)%N) as Hx10.
  { rewrite N2Z.inj_div, N2Z.inj_mod. apply (Z.div_mod (Z.of_N x) 10). lia. }
  destruct (decide (x `div` 10 = 0)%N) as [Hq|Hq].
  - rewrite Hq, pretty_N_go_0. exists 1. split; [lia|]. intros acc b. simpl.
    destruct (decide (_ = _)); [done|]. rewrite Hd. f_equal. rewrite Hq in Hx10. lia.
  - destruct (IH (x `div` 10)%N) with (s := String (pretty_N_char (x `mod` 10)%N) s)
      as (k & Hk & Hgo); [apply N.div_lt; lia|by apply N.neq_0_lt_0|].
    exists (k + 1). split; [lia|]. intros acc b. rewrite Hgo. simpl.
    destruct (decide (_ = _)); [done|]. rewrite Hd. f_equal.
    rewrite Z.pow_add_r by lia. lia.
Qed.

(** The text of a number that is not negative is a numeral. *)
Lemma of_int_numeral (n : Z) :
  0 ≤ n →
  all_chars is_digit (PyStr.of_int n) = true ∧
  PyStr.of_int n ≠ "" ∧
  PyStr.digits (PyStr.of_int n) = Some n.
Proof.
  intros Hn. unfold PyStr.of_int, pretty, pretty_Z.
  destruct n as [|p|p]; [done| |lia].
  unfold pretty, pretty_positive, pretty, pretty_N.
  destruct (decide (N.pos p = 0)%N); [done|].
  split; [by apply pretty_N_go_all_digits|].
  destruct (pretty_N_go_value (N.pos p)) with (s := "") as (k & Hk & Hgo); [lia|].
  split.
  - intros Hemp. specialize (Hgo 0 true). rewrite Hemp in Hgo. simpl in Hgo.
    congruence.
  - unfold PyStr.digits. rewrite Hgo. simpl. f_equal.
Qed.

Lemma int_opt_of_int (n : Z) : 0 ≤ n → PyStr.int_opt (PyStr.of_int n) = Some n.
Proof.
  intros Hn. destruct (of_int_numeral n Hn) as (Hall & Hne & Hval).
  unfold PyStr.int_opt. rewrite strip_with_digits; [|by intros [[] [] [] [] [] [] [] []]|done].
  destruct (PyStr.of_int n) as [|c s]; [done|].
  simpl in Hall. apply andb_true_iff in Hall as [Hc _].
  destruct c as [[] [] [] [] [] [] [] []]; done.
Qed.

Lemma token_range_of_int (n : Z) : 0 ≤ n → token_range (PyStr.of_int n) = Some (n, n).
Proof.
  intros Hn. destruct (of_int_numeral n Hn) as (Hall & _ & _).
  unfold token_range. rewrite contains_digits by done.
  by rewrite int_opt_of_int.
Qed.

Lemma port_tokens_of_int (n : Z) :
  0 ≤ n → port_tokens (PyStr.of_int n) = [PyStr.of_int n].
Proof.
  intros Hn. destruct (of_int_numeral n Hn) as (Hall & Hne & _).
  unfold port_tokens. rewrite split_digits by done. simpl.
  unfold PyStr.strip.
  rewrite strip_with_digits; [|by intros [[] [] [] [] [] [] [] []]|done].
  rewrite filter_cons, filter_nil. by destruct (decide (PyStr.of_int n ≠ "")).
Qed.

Lemma sorted_set_singleton (n : Z) : py_sorted (py_set [n]) = [n].
Proof.
  unfold py_set. simpl. reflexivity.
Qed.

Lemma parse_ports_of_int (n : Z) :
  0 ≤ n → parse_ports (PyStr.of_int n) = Returned [n].
Proof.
  intros Hn. destruct (of_int_numeral n Hn) as (Hall & Hne & _).
  unfold parse_ports. rewrite split_digits by done. simpl.
  pose proof (parse_ports_step_spec [] (PyStr.of_int n)) as Hstep.
  simpl in Hstep. unfold PyStr.strip in Hstep.
  rewrite strip_with_digits in Hstep;
    [|by intros [[] [] [] [] [] [] [] []]|done].
  rewrite decide_False, token_range_of_int in Hstep by done.
  rewrite Hstep. simpl. by rewrite py_range_one, sorted_set_singleton.
Qed.

(** C5: [parse_ports] cuts the specification at the commas and drops the
    empty tokens; a token is one integer or an inclusive range whose
    endpoints are put in order ([token_range]).  When every token is of
    that form the result holds exactly the ports the tokens stand for, in
    strictly ascending order, hence each once; when some token is not, the
    call raises [ValueError].  The two specifications of the documentation
    give the sets stated there. *)
Theorem parse_ports_sorted_set (ports_str : string) :
  parse_ports "22,80,1000-1002,1000" = Returned [22; 80; 1000; 1001; 1002] ∧
  parse_ports "80-22" = Returned (seqZ 22 59) ∧
  match parse_ports ports_str with
  | Returned ps =>
      Forall (λ t, is_Some (token_range t)) (port_tokens ports_str) ∧
      StronglySorted Z.lt ps ∧ NoDup ps ∧
      ∀ p, p ∈ ps ↔
        ∃ t lo hi, t ∈ port_tokens ports_str ∧
                   token_range t = Some (lo, hi) ∧ lo ≤ p ≤ hi
  | Raised e =>
      exn_type e = ValueError ∧
      Exists (λ t, token_range t = None) (port_tokens ports_str)
  end.
Proof.
  split; [by vm_compute|]. split; [by vm_compute|].
  apply parse_ports_cases.
Qed.

Lemma of_int_negative (n : Z) :
  n < 0 → PyStr.of_int n = String "-" (PyStr.of_int (- n)).
Proof. intros Hn. by destruct n as [|p|p]; [lia|lia|]. Qed.

(** Blanks are stripped from neither end of a minus sign before a
    numeral. *)
Lemma rev_app_digits_head sp d : ∀ c acc,
  (∀ c, is_digit c = true → sp c = false) →
  sp c = false → all_chars is_digit d = true →
  match String.rev_app d (String c acc) with
  | "" => True
  | String x _ => sp x = false
  end.
Proof.
  induction d as [|a d IH]; intros c acc Hsp Hc Hd; simpl; [done|].
  simpl in Hd. apply andb_true_iff in Hd as [Ha Hd]. apply IH; auto.
Qed.

Lemma strip_with_minus_digits sp d :
  sp "-"%char = false → (∀ c, is_digit c = true → sp c = false) →
  all_chars is_digit d = true →
  PyStr.strip_with sp (String "-" d) = String "-" d.
Proof.
  intros Hminus Hsp Hd. unfold PyStr.strip_with, PyStr.rstrip_with.
  simpl. rewrite Hminus.
  assert (PyStr.lstrip_with sp (String.rev (String "-" d))
          = String.rev (String "-" d)) as ->; [|apply string_rev_involutive].
  unfold String.rev. simpl.
  pose proof (rev_app_digits_head sp d "-"%char "" Hsp Hminus Hd) as Hhead.
  destruct (String.rev_app d "-") as [|x r]; [done|].
  simpl. by rewrite Hhead.
Qed.

(** A negative numeral is no token: the minus sign is taken for the sign
    of a range, whose first end is then the empty text. *)
Lemma token_range_negative (n : Z) :
  n < 0 →
  PyStr.strip (PyStr.of_int n) = PyStr.of_int n ∧
  PyStr.split "," (PyStr.of_int n) = [PyStr.of_int n] ∧
  token_range (PyStr.of_int n) = None.
Proof.
  intros Hn. rewrite of_int_negative by done.
  destruct (of_int_numeral (- n)) as (Hd & _ & _); [lia|].
  split; [|split].
  - apply strip_with_minus_digits; [done| |done].
    by intros [[] [] [] [] [] [] [] []].
  - simpl. by rewrite split_digits.
  - unfold token_range. simpl. reflexivity.
Qed.

(** C10, as the code has it: [parse_ports] checks no bounds.  The numeral
    of any integer that is not negative, zero and numbers above 65535 among
    them, is parsed to that integer; and whenever a specification is
    accepted, the integer of each such token is in the result.  The numeral
    of a negative integer is rejected, and every specification with such a
    token is: the minus sign is read as the sign of a range, and the empty
    text before it is no integer. *)
Theorem parse_ports_no_bounds (n : Z) :
  (0 ≤ n →
     parse_ports (PyStr.of_int n) = Returned [n] ∧
     ∀ ports_str ps,
       parse_ports ports_str = Returned ps →
       PyStr.of_int n ∈ port_tokens ports_str → n ∈ ps) ∧
  (n < 0 →
     parse_ports (PyStr.of_int n) = Raised (PyStr.invalid_literal "") ∧
     ∀ ports_str,
       PyStr.of_int n ∈ port_tokens ports_str →
       ∃ e, parse_ports ports_str = Raised e ∧ exn_type e = ValueError).
Proof.
  split.
  - intros Hn. split; [by apply parse_ports_of_int|].
    intros ports_str ps Hps Htok.
    pose proof (parse_ports_cases ports_str) as H. rewrite Hps in H.
    destruct H as (_ & _ & _ & Hin). apply Hin.
    exists (PyStr.of_int n), n, n.
    split; [done|]. split; [by apply token_range_of_int|lia].
  - intros Hn. destruct (token_range_negative n Hn) as (Hstrip & Hsplit & Htok).
    split.
    + unfold parse_ports. rewrite Hsplit. simpl.
      unfold parse_ports_step. rewrite Hstrip.
      rewrite of_int_negative by done. reflexivity.
    + intros ports_str Hin.
      pose proof (parse_ports_cases ports_str) as H.
      destruct (parse_ports ports_str) as [ps|e].
      * destruct H as (Hall & _). rewrite Forall_forall in Hall.
        destruct (Hall _ Hin) as [? Hsome]. congruence.
      * exists e. by destruct H.
Qed.

Lemma parse_ports_no_bounds_witness :
  0 ≤ 99999 ∧
  (parse_ports (PyStr.of_int 99999) = Returned [99999] ∧
   ∀ ports_str ps,
     parse_ports ports_str = Returned ps →
     PyStr.of_int 99999 ∈ port_tokens ports_str → 99999 ∈ ps).
Proof. split; [lia|apply (proj1 (parse_ports_no_bounds 99999)); lia]. Defined.

(** C10, as stated, fails: [-1] is a number outside the range of TCP ports
    and it is rejected, alone and beside a valid port, though not by any
    check of bounds. *)
Lemma parse_ports_rejects_negative_numbers :
  parse_ports "-1"
  = Raised (Exn ValueError "invalid literal for int() with base 10: ''") ∧
  parse_ports "22,-1"
  = Raised (Exn ValueError "invalid literal for int() with base 10: ''").
Proof. split; reflexivity. Qed.

(** ** The executor *)

Lemma omap_lookup_seq {A} (l : list A) : ∀ pre,
  omap ((pre ++ l) !!.) (seq (length pre) (length l)) = l.
Proof.
  induction l as [|x l IH]; intros pre; simpl; [done|].
  rewrite list_lookup_middle by done. simpl. f_equal.
  specialize (IH (pre ++ [x])).
  rewrite length_app, <- app_assoc in IH. simpl in IH.
  by rewrite Nat.add_1_r in IH.
Qed.

Lemma completed_in_order {T F} (futures : list (T * F)) :
  completed futures (seq 0 (length futures)) = futures.
Proof. apply (omap_lookup_seq futures []). Qed.

Lemma completed_Permutation {T F} (futures : list (T * F)) order :
  completion_order (length futures) order → completed futures order ≡ₚ futures.
Proof.
  unfold completion_order, completed. intros ->.
  change (completed futures (seq 0 (length futures)) ≡ₚ futures).
  by rewrite completed_in_order.
Qed.

Lemma completed_nil {T F} order : completed (@nil (T * F)) order = [].
Proof. unfold completed. induction order as [|i order IH]; simpl; by rewrite ?IH. Qed.

Lemma submitted_app tr1 tr2 : submitted (tr1 ++ tr2) = submitted tr1 ++ submitted tr2.
Proof. apply omap_app. Qed.

Lemma lookups_app tr1 tr2 : lookups (tr1 ++ tr2) = lookups tr1 ++ lookups tr2.
Proof. apply omap_app. Qed.

Lemma submitted_logs tr : Forall (λ e, is_log e = true) tr → submitted tr = [].
Proof. induction 1 as [|[] tr ? ? IH]; simpl in *; done. Qed.

Lemma lookups_logs tr : Forall (λ e, is_log e = true) tr → lookups tr = [].
Proof. induction 1 as [|[] tr ? ? IH]; simpl in *; done. Qed.

Lemma submitted_submits {A} (f : A → call) l : submitted (Submit ∘ f <$> l) = f <$> l.
Proof. induction l as [|x l IH]; simpl; [done|]. by f_equal. Qed.

Lemma lookups_submits {A} (f : A → call) l : lookups (Submit ∘ f <$> l) = [].
Proof. induction l as [|x l IH]; simpl; done. Qed.

Lemma Forall_bind_logs {A} (f : A → list event) l :
  (∀ x, Forall (λ e, is_log e = true) (f x)) →
  Forall (λ e, is_log e = true) (l ≫= f).
Proof.
  intros Hf. induction l as [|x l IH]; [constructor|].
  rewrite bind_cons. apply Forall_app. auto.
Qed.

Section executor_facts.
Context {T F X : Type}.
Variables (kept : T → F → list X) (logged : T → F → list event).
Variable body : list X * list event → T → F → list X * list event.
Hypothesis body_app :
  ∀ acc t r, body acc t r = (acc.1 ++ kept t r, acc.2 ++ logged t r).

(** A loop whose body only appends: the result is what the futures
    contribute, one after the other in completion order. *)
Lemma for_as_completed_app (futures : list (T * F)) order : ∀ init,
  for_as_completed futures order body init =
    (init.1 ++ (completed futures order ≫= uncurry kept),
     init.2 ++ (completed futures order ≫= uncurry logged)).
Proof.
  unfold for_as_completed, completed.
  induction order as [|i order IH]; intros [xs tr]; simpl.
  - by rewrite !app_nil_r.
  - destruct (futures !! i) as [[t r]|]; simpl; [|apply IH].
    rewrite IH, body_app. simpl. by rewrite <- !app_assoc.
Qed.
End executor_facts.

(** ** Ping sweep *)

Lemma ping_collect_app acc host r :
  ping_collect acc host r = (acc.1 ++ ping_kept host r, acc.2 ++ ping_logged host r).
Proof. destruct acc, r as [[]|]; simpl; by rewrite ?app_nil_r. Qed.

Lemma ping_logged_logs hr :
  Forall (λ e, is_log e = true) (uncurry ping_logged hr).
Proof. destruct hr as [h [[]|]]; repeat constructor. Qed.

(** One run of the pool of a sweep: every host is submitted, in order, and
    the live hosts come back in completion order. *)
Lemma ping_pool_run w hosts timeout max_workers order tr :
  0 < max_workers →
  let futures :=
    submit_all (λ i host, Returned (ping_host (w i) host timeout)) hosts in
  let live := completed futures order ≫= uncurry ping_kept in
  ping_pool w hosts timeout max_workers order tr =
    (Returned live,
     (tr ++ (Submit ∘ (λ host, ping_host_call host timeout) <$> hosts))
        ++ (completed futures order ≫= uncurry ping_logged)
        ++ [Log INFO ("Ping sweep complete. Live hosts: "
                      +:+ PyStr.of_int (Z.of_nat (length live)))]).
Proof.
  intros Hw futures live. unfold ping_pool, ThreadPoolExecutor.
  rewrite decide_False by lia.
  rewrite (for_as_completed_app ping_kept ping_logged _ ping_collect_app).
  simpl. by rewrite <- app_assoc.
Qed.

Lemma ping_pool_submitted w hosts timeout max_workers order tr :
  0 < max_workers →
  submitted (ping_pool w hosts timeout max_workers order tr).2 =
    submitted tr ++ ((λ host, ping_host_call host timeout) <$> hosts).
Proof.
  intros Hw. rewrite ping_pool_run by done. simpl.
  rewrite !submitted_app, submitted_submits.
  rewrite (submitted_logs (_ ≫= _))
    by (apply Forall_bind_logs, ping_logged_logs).
  simpl. by rewrite app_nil_r.
Qed.

Lemma range_hosts_lookup base start end_ (k : nat) :
  Z.of_nat k ≤ end_ - start →
  range_hosts base start end_ !! k
  = Some (base +:+ PyStr.of_int (start + Z.of_nat k)).
Proof.
  intros Hk. unfold range_hosts, py_range.
  by rewrite list_lookup_fmap, lookup_seqZ_lt by lia.
Qed.

Lemma range_hosts_NoDup base start end_ : NoDup (range_hosts base start end_).
Proof.
  unfold range_hosts, py_range.
  apply (NoDup_fmap_2 (String.app base ∘ pretty)), NoDup_seqZ.
Qed.

Lemma range_hosts_reversed base start end_ :
  end_ < start → range_hosts base start end_ = [].
Proof. intros H. unfold range_hosts, py_range. by rewrite seqZ_nil by lia. Qed.

(** C3, as the code has it: from [start <= end] the comprehension of
    [ping_sweep_range] lists [end - start + 1] distinct host strings, the
    [k]-th being the prefix followed by [start + k]; a sweep whose prefix
    ends with a dot and whose pool has a worker submits one probe for each,
    in that order.  From [start > end] the list is empty: the endpoints are
    not swapped, and such a sweep submits no probe and returns an empty
    list after two INFO records, without raising and without an error
    record.  What else a sweep may meet does not come from the range: a
    prefix without the final dot is answered by an error record and an
    empty list, and a pool without workers by [ValueError], whatever the
    endpoints are. *)
Theorem range_hosts_enumeration (base_network : string) (start end_ : Z) :
  let hosts := range_hosts base_network start end_ in
  (start ≤ end_ →
     length hosts = Z.to_nat (end_ - start + 1) ∧
     NoDup hosts ∧
     ∀ k : nat, Z.of_nat k ≤ end_ - start →
       hosts !! k = Some (base_network +:+ PyStr.of_int (start + Z.of_nat k))) ∧
  (end_ < start → hosts = []) ∧
  (∀ w timeout max_workers order,
     PyStr.endswith "." base_network = true → 0 < max_workers →
     let run :=
       ping_sweep_range w base_network start end_ timeout max_workers order in
     submitted run.2 = (λ host, ping_host_call host timeout) <$> hosts ∧
     (end_ < start →
        run = (Returned [],
               [Log INFO ("Starting ping sweep for 0 hosts in " +:+ base_network
                          +:+ PyStr.of_int start +:+ "-" +:+ PyStr.of_int end_);
                Log INFO "Ping sweep complete. Live hosts: 0"]))) ∧
  (∀ w timeout max_workers order,
     let run :=
       ping_sweep_range w base_network start end_ timeout max_workers order in
     (PyStr.endswith "." base_network = false →
        run = (Returned [],
               [Log ERROR "Base network must end with a dot, e.g., 192.168.1."])) ∧
     (PyStr.endswith "." base_network = true → max_workers ≤ 0 →
        run = (Raised (Exn ValueError "max_workers must be greater than 0"),
               [Log INFO ("Starting ping sweep for "
                          +:+ PyStr.of_int (Z.of_nat (length hosts))
                          +:+ " hosts in " +:+ base_network
                          +:+ PyStr.of_int start +:+ "-" +:+ PyStr.of_int end_)]))).
Proof.
  intros hosts. split; [|split; [|split]].
  - intros Hle. split; [|split].
    + unfold hosts, range_hosts, py_range. rewrite length_fmap, length_seqZ. lia.
    + apply range_hosts_NoDup.
    + intros k Hk. by apply range_hosts_lookup.
  - apply range_hosts_reversed.
  - intros w timeout max_workers order Hdot Hw run. split.
    + unfold run, ping_sweep_range. rewrite Hdot. simpl.
      by rewrite ping_pool_submitted.
    + intros Hrev. unfold run, ping_sweep_range. rewrite Hdot. simpl.
      rewrite ping_pool_run by done.
      rewrite range_hosts_reversed by done.
      change (submit_all _ []) with (@nil (string * pyres bool)).
      rewrite completed_nil. reflexivity.
  - intros w timeout max_workers order run. split.
    + intros Hdot. unfold run, ping_sweep_range. by rewrite Hdot.
    + intros Hdot Hw. unfold run, ping_sweep_range. rewrite Hdot. simpl.
      unfold ping_pool, ThreadPoolExecutor. by rewrite decide_True by done.
Qed.

(** C3, as stated, fails: a reversed range is not rejected.  The sweep of
    [192.168.1.50] down to [192.168.1.1] returns normally, with no host
    probed and nothing but two INFO records in the log. *)
Lemma reversed_range_is_not_rejected :
  ping_sweep_range (λ _, World.linux ["192.168.1.1"]) "192.168.1." 50 1 1 64 []
  = (Returned [],
     [Log INFO "Starting ping sweep for 0 hosts in 192.168.1.50-1";
      Log INFO "Ping sweep complete. Live hosts: 0"]).
Proof. by vm_compute. Qed.





(** ** The hosts of a network *)

Lemma StronglySorted_seqZ m n : StronglySorted Z.lt (seqZ m n).
Proof.
  unfold seqZ. generalize 0%nat as a, (Z.to_nat n) as k. intros a k. revert a.
  induction k as [|k IH]; intros a; simpl; constructor; [apply IH|].
  apply Forall_fmap, Forall_forall. intros i [? ?]%elem_of_seq. simpl. lia.
Qed.

Lemma shiftr_all_ones m p : 0 ≤ p ≤ m → Z.shiftr (2 ^ m - 1) p = 2 ^ (m - p) - 1.
Proof.
  intros Hp. rewrite Z.shiftr_div_pow2 by lia. symmetry.
  apply Z.div_unique with (r := 2 ^ p - 1).
  - left. assert (0 < 2 ^ p) by (apply Z.pow_pos_nonneg; lia). lia.
  - replace m with ((m - p) + p) at 1 by lia.
    rewrite Z.pow_add_r by lia. lia.
Qed.

Lemma hostmask_eq n :
  0 ≤ ipaddress.prefixlen n ≤ ipaddress.max_prefixlen (ipaddress.net_version n) →
  ipaddress.hostmask n
  = 2 ^ (ipaddress.max_prefixlen (ipaddress.net_version n) - ipaddress.prefixlen n) - 1.
Proof.
  intros Hp. unfold ipaddress.hostmask, ipaddress.netmask, ipaddress.ALL_ONES.
  rewrite shiftr_all_ones by done.
  rewrite (Z.lxor_comm (2 ^ _ - 1) (2 ^ _ - 1)), Z.lxor_assoc.
  by rewrite Z.lxor_nilpotent, Z.lxor_0_r.
Qed.

Lemma broadcast_address_eq n :
  ipaddress.wf n →
  ipaddress.broadcast_address n
  = ipaddress.network_address n
    + (2 ^ (ipaddress.max_prefixlen (ipaddress.net_version n) - ipaddress.prefixlen n) - 1).
Proof.
  intros [Hp Ha Hbits]. unfold ipaddress.broadcast_address.
  rewrite <- Z.lxor_lor, <- Z.add_nocarry_lxor by done.
  by rewrite hostmask_eq.
Qed.

Lemma hosts_eq n :
  ipaddress.wf n → ipaddress.hosts n = seqZ (first_host n) (host_count n).
Proof.
  intros Hwf. pose proof (broadcast_address_eq n Hwf) as Hb.
  destruct Hwf as [Hp Ha Hbits].
  unfold ipaddress.hosts, ipaddress.iter, first_host, last_host, host_count,
    py_range.
  set (m := ipaddress.max_prefixlen (ipaddress.net_version n)) in *.
  set (p := ipaddress.prefixlen n) in *.
  repeat case_decide; try lia.
  - f_equal. rewrite Hb. replace (m - p) with 1 by lia. simpl. lia.
  - by rewrite seqZ_cons, seqZ_nil by lia.
  - destruct (ipaddress.net_version n); f_equal; lia.
Qed.

Lemma host_count_nonneg n : ipaddress.wf n → 0 < host_count n.
Proof.
  intros [Hp _ _]. unfold host_count.
  set (m := ipaddress.max_prefixlen (ipaddress.net_version n)) in *.
  set (p := ipaddress.prefixlen n) in *.
  repeat case_decide; try lia.
  assert (2 ^ 2 ≤ 2 ^ (m - p)) by (apply Z.pow_le_mono_r; lia).
  destruct (ipaddress.net_version n); lia.
Qed.

Lemma last_host_eq n :
  ipaddress.wf n → last_host n = first_host n + host_count n - 1.
Proof.
  intros Hwf. pose proof (broadcast_address_eq n Hwf) as Hb.
  destruct Hwf as [Hp _ _]. unfold last_host, first_host, host_count.
  set (m := ipaddress.max_prefixlen (ipaddress.net_version n)) in *.
  set (p := ipaddress.prefixlen n) in *.
  rewrite Hb. repeat case_decide; try lia.
  - replace (m - p) with 0 by lia. simpl. lia.
  - replace (m - p) with 1 by lia. simpl. lia.
  - destruct (ipaddress.net_version n); lia.
Qed.

(** C6, as the code has it: for a network object of the library the list of
    hosts is strictly ascending, hence without repeats, and stays inside the
    block.  With at least two host bits it runs from the address after the
    network address to, for IPv4, the address before the broadcast address,
    [2^(32-p) - 2] addresses, and for IPv6 to the last address of the block,
    [2^(128-p) - 1] addresses.  With one host bit (/31, /127) it is both
    addresses of the block and with none (/32, /128) the one address: there
    the network address is a host. *)
Theorem cidr_hosts_enumeration (l : ipaddress.lib) (n : ipaddress.network) :
  ipaddress.wf n →
  let m := ipaddress.max_prefixlen (ipaddress.net_version n) in
  let hs := ipaddress.hosts n in
  cidr_hosts l n = ipaddress.address_str l (ipaddress.net_version n) <$> hs ∧
  Z.of_nat (length hs) = host_count n ∧
  StronglySorted Z.lt hs ∧ NoDup hs ∧
  (∀ a, a ∈ hs ↔ first_host n ≤ a ≤ last_host n) ∧
  (∀ a, a ∈ hs →
     ipaddress.network_address n ≤ a ≤ ipaddress.broadcast_address n) ∧
  (ipaddress.prefixlen n ≤ m - 2 →
     (ipaddress.network_address n ∉ hs) ∧
     (ipaddress.net_version n = ipaddress.IPv4 →
        (ipaddress.broadcast_address n ∉ hs) ∧
        host_count n = 2 ^ (32 - ipaddress.prefixlen n) - 2)) ∧
  (m - 1 ≤ ipaddress.prefixlen n →
     ipaddress.network_address n ∈ hs ∧ ipaddress.broadcast_address n ∈ hs).
Proof.
  intros Hwf m hs.
  pose proof (hosts_eq n Hwf) as Hhs. fold hs in Hhs.
  pose proof (host_count_nonneg n Hwf) as Hpos.
  pose proof (last_host_eq n Hwf) as Hlast.
  pose proof (broadcast_address_eq n Hwf) as Hb. fold m in Hb.
  assert (∀ a, a ∈ hs ↔ first_host n ≤ a ≤ last_host n) as Hin.
  { intros a. rewrite Hhs, elem_of_seqZ. lia. }
  assert (0 < 2 ^ (m - ipaddress.prefixlen n)) as Hsize.
  { destruct Hwf as [Hp _ _]. apply Z.pow_pos_nonneg; fold m in Hp; lia. }
  split; [done|]. split; [rewrite Hhs, length_seqZ; lia|].
  split; [rewrite Hhs; apply StronglySorted_seqZ|].
  split; [rewrite Hhs; apply NoDup_seqZ|].
  split; [done|].
  clear Hhs. subst hs m. destruct Hwf as [Hp _ _].
  unfold first_host, last_host, host_count in *.
  destruct n as [v a p]; simpl in *.
  split; [|split; [|split]].
  - intros x Hx%Hin. split; [case_decide; lia|].
    repeat case_decide; destruct v; lia.
  - intros Hlen. split; [rewrite Hin; case_decide; lia|].
    intros ->. simpl in *. split; [rewrite Hin|]; repeat case_decide; lia.
  - rewrite Hin. case_decide; lia.
  - rewrite Hin. case_decide; lia.
Qed.

Lemma cidr_hosts_enumeration_witness :
  ipaddress.wf (ipaddress.Network ipaddress.IPv4 167772164 30) ∧
  cidr_hosts World.ip4 (ipaddress.Network ipaddress.IPv4 167772164 30)
  = ["10.0.0.5"; "10.0.0.6"] ∧
  (167772164 ∉ ipaddress.hosts (ipaddress.Network ipaddress.IPv4 167772164 30)).
Proof.
  assert (ipaddress.wf (ipaddress.Network ipaddress.IPv4 167772164 30)) as Hwf
    by (split; by vm_compute).
  split; [exact Hwf|].
  destruct (cidr_hosts_enumeration World.ip4 _ Hwf)
    as (Hstr & _ & _ & _ & _ & _ & Hout & _).
  split; [by rewrite Hstr|].
  apply Hout. simpl. lia.
Defined.

(** C6, as stated, fails: the hosts of [10.0.0.0/31] are both addresses of
    the block, its network address [10.0.0.0] and its broadcast address
    [10.0.0.1], and the one host of [10.0.0.5/32] is its network address. *)
Lemma longest_prefixes_keep_the_network_address :
  ipaddress.ip_network World.ip4 "10.0.0.0/31"
  = Returned (ipaddress.Network ipaddress.IPv4 167772160 31) ∧
  ipaddress.network_address (ipaddress.Network ipaddress.IPv4 167772160 31)
  = 167772160 ∧
  ipaddress.broadcast_address (ipaddress.Network ipaddress.IPv4 167772160 31)
  = 167772161 ∧
  ipaddress.hosts (ipaddress.Network ipaddress.IPv4 167772160 31)
  = [167772160; 167772161] ∧
  cidr_hosts World.ip4 (ipaddress.Network ipaddress.IPv4 167772160 31)
  = ["10.0.0.0"; "10.0.0.1"] ∧
  ipaddress.ip_network World.ip4 "10.0.0.5/32"
  = Returned (ipaddress.Network ipaddress.IPv4 167772165 32) ∧
  ipaddress.hosts (ipaddress.Network ipaddress.IPv4 167772165 32)
  = [167772165].
Proof. repeat split; by vm_compute. Qed.

(** ** Port scan *)

Lemma port_collect_app target_ip acc port r :
  port_collect target_ip acc port r
  = (acc.1 ++ port_kept port r, acc.2 ++ port_logged target_ip port r).
Proof. destruct acc, r as [[]|]; simpl; by rewrite ?app_nil_r. Qed.

Lemma port_logged_logs target_ip pr :
  Forall (λ e, is_log e = true) (uncurry (port_logged target_ip) pr).
Proof. destruct pr as [p [[]|]]; repeat constructor. Qed.

(** One run of the scan once the name is resolved and the pool exists. *)
Lemma port_scan_run gethostbyname w host ports timeout max_workers order
    target_ip :
  gethostbyname host = Returned target_ip → 0 < max_workers →
  let futures :=
    submit_all (λ i port, scan_port (w i) target_ip port timeout) ports in
  let open_ports := completed futures order ≫= uncurry port_kept in
  port_scan gethostbyname w host ports timeout max_workers order =
    (Returned open_ports,
     ([GetHostByName host;
       Log INFO ("Starting port scan on " +:+ host +:+ " (" +:+ target_ip
                 +:+ ") for " +:+ PyStr.of_int (Z.of_nat (length ports))
                 +:+ " ports")]
      ++ (Submit ∘ (λ port, scan_port_call target_ip port timeout) <$> ports))
     ++ (completed futures order ≫= uncurry (port_logged target_ip))
     ++ [Log INFO ("Port scan complete. Open ports: "
                   +:+ PyStr.of_int_list open_ports)]).
Proof.
  intros Hip Hw futures open_ports. unfold port_scan, ThreadPoolExecutor.
  rewrite Hip, decide_False by lia.
  rewrite (for_as_completed_app port_kept (port_logged target_ip) _
             (port_collect_app target_ip)).
  simpl. by rewrite <- app_assoc.
Qed.

(** C7, as the code has it: a scan asks the name service once, for the
    host it was given, however many ports it scans; every probe it submits
    is for the address that lookup gave.  When the lookup raises, no probe
    is submitted and no per-port record is written.  On [gaierror] the scan
    does not fail: it writes the error record [Cannot resolve host ...] and
    returns an empty list, and [main] prints nothing and ends with exit
    code 0, whatever its standard output does.  Any other exception leaves
    the scan as it is and ends [main] with exit code 1. *)
Theorem port_scan_resolves_once (gethostbyname : string → pyres string)
    (w : nat → sock) (host : string) (ports : list Z) (timeout : float)
    (max_workers : Z) (order : list nat) :
  let run := port_scan gethostbyname w host ports timeout max_workers order in
  lookups run.2 = [host] ∧
  match gethostbyname host with
  | Returned target_ip =>
      submitted run.2 =
        if decide (0 < max_workers)
        then (λ port, scan_port_call target_ip port timeout) <$> ports
        else []
  | Raised e =>
      submitted run.2 = [] ∧
      (if isinstance_gaierror e
       then run = (Returned [],
                   [GetHostByName host;
                    Log ERROR ("Cannot resolve host " +:+ host +:+ ": "
                               +:+ exn_str e)])
       else run = (Raised e, [GetHostByName host])) ∧
      ∀ stdout S v ports_str,
        sys_gethostbyname S = gethostbyname →
        parse_ports ports_str = Returned ports → ports ≠ [] →
        let r :=
          main_try_stdout stdout S
            (Namespace v max_workers (port_scan_args host ports_str timeout)) in
        if isinstance_gaierror e
        then r = (0, [],
                  [GetHostByName host;
                   Log ERROR ("Cannot resolve host " +:+ host +:+ ": "
                              +:+ exn_str e)])
        else r = (1, [], [GetHostByName host; unhandled e])
  end.
Proof.
  intros run. destruct (gethostbyname host) as [target_ip|e] eqn:Hip.
  - destruct (decide (0 < max_workers)) as [Hw|Hw].
    + unfold run. rewrite (port_scan_run _ _ _ _ _ _ _ target_ip) by done.
      simpl. rewrite !lookups_app, !submitted_app.
      rewrite lookups_submits, submitted_submits.
      rewrite (lookups_logs (_ ≫= _)), (submitted_logs (_ ≫= _))
        by (apply Forall_bind_logs, port_logged_logs).
      simpl. by rewrite app_nil_r.
    + unfold run, port_scan, ThreadPoolExecutor.
      rewrite Hip, decide_True by lia. done.
  - unfold run, port_scan. rewrite Hip.
    split; [by destruct (isinstance_gaierror e)|].
    split; [by destruct (isinstance_gaierror e)|].
    split; [by destruct (isinstance_gaierror e)|].
    intros stdout S v ports_str HS Hps Hne.
    unfold main_try_stdout. simpl. rewrite Hps. simpl.
    rewrite decide_False by done.
    unfold port_scan. rewrite HS, Hip.
    by destruct (isinstance_gaierror e).
Qed.

(** C7, as stated, fails: a scan of a host that does not resolve does not
    fail.  It returns the empty list, as the scan of a host does on which
    every port is closed, and [main] ends with exit code 0; the error
    record is all that tells the two apart. *)
Lemma unresolved_host_is_no_failure :
  port_scan (World.resolver [("localhost", "127.0.0.1")]) (λ _, World.tcp [22])
    "nowhere" [80; 81] 1%float 64 [0; 1]%nat
  = (Returned [],
     [GetHostByName "nowhere";
      Log ERROR "Cannot resolve host nowhere: [Errno -2] Name or service not known"]) ∧
  (port_scan (World.resolver [("localhost", "127.0.0.1")]) (λ _, World.tcp [22])
     "localhost" [80; 81] 1%float 64 [0; 1]%nat).1
  = Returned [] ∧
  (main_try_stdout (World.pipe 0) (sample_system [0; 1]%nat)
     (Namespace 0 64 (port_scan_args "nowhere" "80,81" 1%float))).1
  = (0, []).
Proof. repeat split; reflexivity. Qed.

(** ** The probes *)

(** C9, as the code has it: once the socket exists and has taken the
    timeout, [scan_port] returns a verdict whatever the connection attempt
    does, and the verdict is [True] exactly when [connect_ex] returned 0.
    An exception raised while the socket is created or while its timeout is
    set is outside the [try] and leaves [scan_port] as it is. *)
Theorem scan_port_verdict (s : sock) (host : string) (port : Z)
    (timeout : float) :
  (socket_new s = Returned () → settimeout s timeout = Returned () →
   ∃ b, scan_port s host port timeout = Returned b ∧
        (b = true ↔ connect_ex s host port = Returned 0)) ∧
  (∀ e, socket_new s = Raised e → scan_port s host port timeout = Raised e) ∧
  (∀ e, socket_new s = Returned () → settimeout s timeout = Raised e →
        scan_port s host port timeout = Raised e).
Proof.
  unfold scan_port. repeat split.
  - intros -> ->. simpl. destruct (connect_ex s host port) as [result|e].
    + exists (bool_decide (result = 0)). split; [done|].
      rewrite bool_decide_eq_true. naive_solver.
    + exists false. naive_solver.
  - by intros e ->.
  - by intros e -> ->.
Qed.

(** C9, as stated, fails: a negative timeout makes [settimeout] raise
    [ValueError] before the [try] is entered, and [scan_port] passes the
    exception on to its caller. *)
Lemma scan_port_raises_on_negative_timeout :
  scan_port (World.tcp [80]) "127.0.0.1" 80 (-1)%float
  = Raised (Exn ValueError "Timeout value out of range").
Proof. by vm_compute. Qed.

(** C8: the HTTP probe turns what [requests.get] does into an outcome.  A
    response gives the outcome with its status code, accessible exactly
    when the code is below 400, and an empty message; a
    [RequestException] gives the inaccessible outcome with status 0 and the
    text of the exception as message; only an exception of another kind is
    passed on.  So every outcome names its URL, is accessible exactly when a
    response arrived whose status code is below 400, and carries the status
    code of the response.  A response never has status 0, so status 0 tells
    exactly that none arrived. *)
Theorem check_http_url_outcome (requests_get : string → float → pyres Z)
    (url : string) (timeout : float) :
  (∀ status_code, requests_get url timeout = Returned status_code →
                  status_code ≠ 0) →
  match requests_get url timeout with
  | Returned status_code =>
      (check_http_url requests_get url timeout).1
      = Returned (url, bool_decide (status_code < 400), status_code, "")
  | Raised e =>
      if isinstance_RequestException e
      then (check_http_url requests_get url timeout).1
           = Returned (url, false, 0, exn_str e)
      else (check_http_url requests_get url timeout).1 = Raised e
  end ∧
  ∀ result,
    (check_http_url requests_get url timeout).1 = Returned result →
    result_url result = url ∧
    (result_accessible result = true ↔
       ∃ status_code, requests_get url timeout = Returned status_code ∧
                      status_code < 400) ∧
    (∀ status_code, requests_get url timeout = Returned status_code →
       result_status result = status_code ∧ result_message result = "") ∧
    (result_status result = 0 ↔ ∃ e, requests_get url timeout = Raised e) ∧
    (∀ e, requests_get url timeout = Raised e →
       isinstance_RequestException e = true ∧
       result = (url, false, 0, exn_str e)).
Proof.
  unfold check_http_url. intros Hnz.
  destruct (requests_get url timeout) as [status_code|e].
  - split; [done|]. intros result Hres.
    simpl in Hres. injection Hres as <-. specialize (Hnz _ eq_refl).
    unfold result_url, result_accessible, result_status, result_message; simpl.
    rewrite bool_decide_eq_true.
    split; [done|]. split; [|split; [|split]].
    + split; [by eauto|]. by intros (s & [= <-] & Hs).
    + by intros s [= <-].
    + split; [done|]. by intros (e & [=]).
    + by intros e [=].
  - destruct (isinstance_RequestException e) eqn:He; simpl; (split; [done|]);
      intros result Hres; [|done].
    injection Hres as <-.
    unfold result_url, result_accessible, result_status, result_message; simpl.
    split; [done|]. split; [|split; [|split]].
    + split; [done|]. by intros (s & [=] & _).
    + by intros s [=].
    + split; [by eauto|done].
    + by intros e' [= <-].
Qed.

Lemma check_http_url_outcome_witness :
  (∀ status_code,
     World.http [("http://a", 404)] "http://b" 5%float = Returned status_code →
     status_code ≠ 0) ∧
  (check_http_url (World.http [("http://a", 404)]) "http://b" 5%float).1
  = Returned ("http://b", false, 0, "Max retries exceeded") ∧
  (∀ status_code,
     World.http [("http://a", 404)] "http://a" 5%float = Returned status_code →
     status_code ≠ 0) ∧
  (check_http_url (World.http [("http://a", 404)]) "http://a" 5%float).1
  = Returned ("http://a", false, 404, "").
Proof.
  assert (∀ status_code,
     World.http [("http://a", 404)] "http://b" 5%float = Returned status_code →
     status_code ≠ 0) as Hb by (by intros ? [=]).
  assert (∀ status_code,
     World.http [("http://a", 404)] "http://a" 5%float = Returned status_code →
     status_code ≠ 0) as Ha by (by intros ? [= <-]).
  split; [exact Hb|]. split.
  { exact (proj1 (check_http_url_outcome (World.http [("http://a", 404)])
                    "http://b" 5%float Hb)). }
  split; [exact Ha|].
  exact (proj1 (check_http_url_outcome (World.http [("http://a", 404)])
                  "http://a" 5%float Ha)).
Defined.

(** ** Results and completion order *)

Lemma http_collect_app acc url r :
  http_collect acc url r = (acc.1 ++ http_kept url r, acc.2 ++ http_logged url r).
Proof.
  destruct acc, r as [[result|e] tr]; unfold http_collect, http_kept, http_logged;
    simpl; by rewrite ?app_nil_r.
Qed.

Lemma http_check_run w urls timeout max_workers order :
  0 < max_workers →
  (http_check w urls timeout max_workers order).1 =
    Returned (completed
                (submit_all (λ i url, check_http_url (w i) url timeout) urls)
                order
              ≫= uncurry http_kept).
Proof.
  intros Hw. unfold http_check, ThreadPoolExecutor.
  rewrite decide_False by lia.
  by rewrite (for_as_completed_app http_kept http_logged _ http_collect_app).
Qed.

Lemma http_kept_submit_all (fn : nat → string → pyres http_result * list event)
    urls :
  submit_all fn urls ≫= uncurry http_kept
  = omap returned (imap (λ i url, (fn i url).1) urls).
Proof.
  unfold submit_all. revert fn.
  induction urls as [|url urls IH]; intros fn; [done|].
  rewrite !imap_cons, bind_cons. unfold compose. cbn beta.
  rewrite (IH (λ i, fn (S i))). simpl.
  unfold http_kept. simpl. by destruct (fn 0%nat url).1.
Qed.

Lemma omap_returned_length {A} (l : list (pyres A)) :
  (length (omap returned l)
   + length (filter (λ r, is_returned r = false) l))%nat = length l.
Proof.
  induction l as [|[a|e] l IH]; [done| |].
  - rewrite filter_cons_False by done. simpl. f_equal. exact IH.
  - rewrite filter_cons_True by done. simpl. rewrite Nat.add_succ_r.
    f_equal. exact IH.
Qed.

Lemma StronglySorted_sublist {A} (R : relation A) l1 l2 :
  l1 `sublist_of` l2 → StronglySorted R l2 → StronglySorted R l1.
Proof.
  induction 1 as [|x l1 l2 Hsub IH|x l1 l2 Hsub IH]; intros Hs; [done| |].
  - apply StronglySorted_inv in Hs as [Hs Hx]. constructor; [by apply IH|].
    rewrite Forall_forall in *. eauto using elem_of_sublist.
  - apply StronglySorted_inv in Hs as [Hs _]. by apply IH.
Qed.

Lemma ping_kept_sublist (fn : nat → string → pyres bool) hosts :
  submit_all fn hosts ≫= uncurry ping_kept `sublist_of` hosts.
Proof.
  unfold submit_all. revert fn.
  induction hosts as [|host hosts IH]; intros fn; [done|].
  rewrite imap_cons, bind_cons. simpl.
  destruct (fn 0%nat host) as [[]|]; simpl;
    [apply sublist_skip|apply sublist_cons|apply sublist_cons]; apply IH.
Qed.

Lemma port_kept_sublist (fn : nat → Z → pyres bool) ports :
  submit_all fn ports ≫= uncurry port_kept `sublist_of` ports.
Proof.
  unfold submit_all. revert fn.
  induction ports as [|port ports IH]; intros fn; [done|].
  rewrite imap_cons, bind_cons. simpl.
  destruct (fn 0%nat port) as [[]|]; simpl;
    [apply sublist_skip|apply sublist_cons|apply sublist_cons]; apply IH.
Qed.

Lemma check_http_url_url requests_get url timeout result :
  (check_http_url requests_get url timeout).1 = Returned result →
  result_url result = url.
Proof.
  unfold check_http_url. destruct (requests_get url timeout) as [s|e].
  - by intros [= <-].
  - destruct (isinstance_RequestException e); [by intros [= <-]|done].
Qed.

Lemma http_kept_sublist w urls timeout :
  result_url <$>
    (submit_all (λ i url, check_http_url (w i) url timeout) urls
     ≫= uncurry http_kept)
  `sublist_of` urls.
Proof.
  unfold submit_all. revert w.
  induction urls as [|url urls IH]; intros w; [done|].
  rewrite imap_cons, bind_cons, fmap_app. unfold http_kept at 1. simpl.
  destruct (check_http_url (w 0%nat) url timeout).1 as [result|e] eqn:Hres; simpl.
  - rewrite (check_http_url_url _ _ _ _ Hres). apply sublist_skip.
    apply (IH (w ∘ S)).
  - apply sublist_cons. apply (IH (w ∘ S)).
Qed.

Lemma in_completion_order_intro {T F X} order (futures : list (T * F))
    (kept : T → F → list X) result :
  result = Returned (completed futures order ≫= uncurry kept) →
  in_completion_order order futures kept result.
Proof.
  intros ->. split; [done|]. split.
  - intros Hperm. eexists. split; [done|].
    by rewrite (completed_Permutation futures order Hperm).
  - intros ->. by rewrite completed_in_order.
Qed.

(** C2, as the code has it: with a pool of at least one worker, each of the
    three collections is handed back in the order the probes completed.  It
    is a rearrangement of the collection in submission order, and equal to
    it when the probes complete in that order; the collection in submission
    order keeps the order of the input targets, so for ascending ports it is
    ascending. *)
Theorem results_in_completion_order (max_workers : Z) (order : list nat) :
  0 < max_workers →
  (∀ w hosts timeout tr,
     let futures :=
       submit_all (λ i host, Returned (ping_host (w i) host timeout)) hosts in
     in_completion_order order futures ping_kept
       (ping_pool w hosts timeout max_workers order tr).1 ∧
     futures ≫= uncurry ping_kept `sublist_of` hosts) ∧
  (∀ gethostbyname w host ports timeout target_ip,
     gethostbyname host = Returned target_ip →
     let futures :=
       submit_all (λ i port, scan_port (w i) target_ip port timeout) ports in
     in_completion_order order futures port_kept
       (port_scan gethostbyname w host ports timeout max_workers order).1 ∧
     futures ≫= uncurry port_kept `sublist_of` ports ∧
     (StronglySorted Z.lt ports →
        StronglySorted Z.lt (futures ≫= uncurry port_kept))) ∧
  (∀ w urls timeout,
     let futures :=
       submit_all (λ i url, check_http_url (w i) url timeout) urls in
     in_completion_order order futures http_kept
       (http_check w urls timeout max_workers order).1 ∧
     result_url <$> (futures ≫= uncurry http_kept) `sublist_of` urls).
Proof.
  intros Hw. split; [|split].
  - intros w hosts timeout tr futures. split; [|apply ping_kept_sublist].
    apply in_completion_order_intro. by rewrite ping_pool_run.
  - intros gethostbyname w host ports timeout target_ip Hip futures.
    split; [|split].
    + apply in_completion_order_intro.
      by rewrite (port_scan_run _ _ _ _ _ _ _ target_ip).
    + apply port_kept_sublist.
    + apply StronglySorted_sublist, port_kept_sublist.
  - intros w urls timeout futures. split; [|apply http_kept_sublist].
    apply in_completion_order_intro. by apply http_check_run.
Qed.

Lemma results_in_completion_order_witness :
  0 < 64 ∧
  in_completion_order [1; 0]%nat
    (submit_all (λ _ port, scan_port (World.tcp [22; 80]) "127.0.0.1" port 1%float)
       [22; 80])
    port_kept
    (port_scan (World.resolver [("localhost", "127.0.0.1")])
       (λ _, World.tcp [22; 80]) "localhost" [22; 80] 1%float 64 [1; 0]%nat).1.
Proof.
  split; [lia|].
  destruct (results_in_completion_order 64 [1; 0]%nat) as (_ & Hport & _); [lia|].
  exact (proj1 (Hport (World.resolver [("localhost", "127.0.0.1")])
                  (λ _, World.tcp [22; 80]) "localhost" [22; 80] 1%float
                  "127.0.0.1" eq_refl)).
Defined.

(** C2, as stated, fails: two runs over the same targets with the same
    verdicts hand back differently ordered collections when the probes
    complete in a different order; the open ports need not ascend and the
    live hosts and HTTP results need not follow the input. *)
Lemma completion_order_shows_in_the_results :
  (port_scan (World.resolver [("localhost", "127.0.0.1")])
     (λ _, World.tcp [22; 80]) "localhost" [22; 80] 1%float 64 [0; 1]%nat).1
  = Returned [22; 80] ∧
  (port_scan (World.resolver [("localhost", "127.0.0.1")])
     (λ _, World.tcp [22; 80]) "localhost" [22; 80] 1%float 64 [1; 0]%nat).1
  = Returned [80; 22] ∧
  (ping_sweep_range (λ _, World.linux ["10.0.0.1"; "10.0.0.2"]) "10.0.0." 1 2
     1 64 [0; 1]%nat).1
  = Returned ["10.0.0.1"; "10.0.0.2"] ∧
  (ping_sweep_range (λ _, World.linux ["10.0.0.1"; "10.0.0.2"]) "10.0.0." 1 2
     1 64 [1; 0]%nat).1
  = Returned ["10.0.0.2"; "10.0.0.1"] ∧
  (http_check (λ _, World.http [("http://a", 200); ("http://b", 404)])
     ["http://a"; "http://b"] 5%float 64 [0; 1]%nat).1
  = Returned [("http://a", true, 200, ""); ("http://b", false, 404, "")] ∧
  (http_check (λ _, World.http [("http://a", 200); ("http://b", 404)])
     ["http://a"; "http://b"] 5%float 64 [1; 0]%nat).1
  = Returned [("http://b", false, 404, ""); ("http://a", true, 200, "")].
Proof. repeat split; by vm_compute. Qed.

(** * Further properties *)

(** ** [main] and [setup_logger] at work *)

Example main_port_scan_ex :
  (main_try (sample_system [1; 0]%nat)
     (Namespace 0 64 (port_scan_args "localhost" "9999, 22" 1%float))).1
  = (0, ["22"]) ∧
  main_try (sample_system [1; 0]%nat)
    (Namespace 0 64 (port_scan_args "nowhere" "22" 1%float))
  = (0, [],
     [GetHostByName "nowhere";
      Log ERROR "Cannot resolve host nowhere: [Errno -2] Name or service not known"]) ∧
  main_try (sample_system [1; 0]%nat)
    (Namespace 0 64 (port_scan_args "localhost" "22,ssh" 1%float))
  = (1, [],
     [Log ERROR "Unhandled exception: invalid literal for int() with base 10: 'ssh'"]).
Proof. repeat split; by vm_compute. Qed.

Example main_http_check_ex :
  (main_try (sample_system [2; 0; 1]%nat)
     (Namespace 0 64
        (http_check_args "http://a, http://b ,,http://c" 5%float))).1
  = (0, ["http://c ERROR (Max retries exceeded)"; "http://a OK (status=200)";
         "http://b FAIL (status=404)"]) ∧
  main_try (sample_system [])
    (Namespace 0 64 (http_check_args " , " 5%float))
  = (1, [], [Log ERROR "No valid URLs specified"]).
Proof. repeat split; by vm_compute. Qed.

Example main_ping_sweep_ex :
  (main_try (sample_system [1; 0; 2]%nat)
     (Namespace 0 64
        (ping_sweep_args None (Some "10.0.0.") (Some 0) (Some 2) 1))).1
  = (0, ["10.0.0.1"]) ∧
  main_try (sample_system [])
    (Namespace 0 64 (ping_sweep_args None (Some "10.0.0.") (Some 0) None 1))
  = (1, [], [Log ERROR "--start and --end are required when using --network"]) ∧
  main_try (sample_system [])
    (Namespace 0 64 (ping_sweep_args (Some "") None (Some 0) (Some 2) 1))
  = (1, [],
     [Log ERROR "Unhandled exception: 'NoneType' object has no attribute 'endswith'"]) ∧
  (main_try (sample_system [1; 0]%nat)
     (Namespace 0 64 (ping_sweep_args (Some "10.0.0.0/30") None None None 1))).1
  = (0, ["10.0.0.1"]).
Proof. repeat split; by vm_compute. Qed.

Example setup_logger_ex :
  setup_logger (λ _, Returned ()) 1 "network_diag.log" (Logger None [])
  = (Returned (),
     Logger (Some DEBUG)
       [Handler StreamHandler INFO;
        Handler (FileHandler "network_diag.log") DEBUG]) ∧
  setup_logger (λ _, Raised (Exn OSError "[Errno 13] Permission denied")) 1
    "network_diag.log" (Logger None [])
  = (Raised (Exn OSError "[Errno 13] Permission denied"),
     Logger (Some DEBUG) []) ∧
  handlers_for (Logger None []) ERROR = [Handler StreamHandler WARNING] ∧
  handlers_for (Logger None []) INFO = [].
Proof. repeat split; by vm_compute. Qed.

(** ** The port-list parser, continued *)

Lemma split_nonempty c s : PyStr.split c s ≠ [].
Proof.
  destruct s as [|a s]; simpl; [done|].
  destruct (decide (a = c)); [done|]. by destruct (PyStr.split c s).
Qed.

Lemma split_app_sep c s1 s2 :
  PyStr.split c (s1 +:+ String c s2) = PyStr.split c s1 ++ PyStr.split c s2.
Proof.
  induction s1 as [|a s1 IH].
  - change (PyStr.split c (String c s2) = [""] ++ PyStr.split c s2).
    simpl. by rewrite decide_True.
  - change (PyStr.split c (String a (s1 +:+ String c s2))
            = PyStr.split c (String a s1) ++ PyStr.split c s2).
    simpl. rewrite IH. destruct (decide (a = c)); [done|].
    pose proof (split_nonempty c s1). by destruct (PyStr.split c s1).
Qed.

(** The list built so far only grows: from [acc] the loop yields [acc]
    followed by what it yields from the empty list, or the same exception. *)
Lemma parse_ports_step_acc acc part :
  parse_ports_step acc part =
    match parse_ports_step [] part with
    | Returned l => Returned (acc ++ l)
    | Raised e => Raised e
    end.
Proof.
  unfold parse_ports_step.
  destruct (decide (PyStr.strip part = "")); [by rewrite app_nil_r|].
  destruct (PyStr.contains "-" (PyStr.strip part)).
  - destruct (PyStr.split1 "-" (PyStr.strip part)) as [|a [|b [|? ?]]]; try done.
    destruct (PyStr.int a) as [x|]; simpl; [|done].
    destruct (PyStr.int b) as [y|]; simpl; [|done].
    by destruct (decide (x > y)).
  - by destruct (PyStr.int (PyStr.strip part)).
Qed.

Lemma parse_ports_loop_acc parts : ∀ acc,
  parse_ports_loop acc parts =
    match parse_ports_loop [] parts with
    | Returned l => Returned (acc ++ l)
    | Raised e => Raised e
    end.
Proof.
  induction parts as [|part parts IH]; intros acc; simpl.
  - by rewrite app_nil_r.
  - rewrite (parse_ports_step_acc acc).
    destruct (parse_ports_step [] part) as [l|e]; simpl; [|done].
    rewrite (IH (acc ++ l)), (IH l).
    destruct (parse_ports_loop [] parts); simpl; [|done].
    by rewrite app_assoc.
Qed.

Lemma parse_ports_loop_app parts1 parts2 : ∀ acc,
  parse_ports_loop acc (parts1 ++ parts2) =
    match parse_ports_loop acc parts1 with
    | Returned acc' => parse_ports_loop acc' parts2
    | Raised e => Raised e
    end.
Proof.
  induction parts1 as [|part parts1 IH]; intros acc; simpl; [done|].
  destruct (parse_ports_step acc part); simpl; [apply IH|done].
Qed.

Lemma StronglySorted_lt_unique (l1 : list Z) : ∀ l2,
  StronglySorted Z.lt l1 → StronglySorted Z.lt l2 →
  (∀ x, x ∈ l1 ↔ x ∈ l2) → l1 = l2.
Proof.
  induction l1 as [|a l1 IH]; intros [|b l2] H1 H2 Hin.
  - done.
  - destruct (not_elem_of_nil b). apply Hin. left.
  - destruct (not_elem_of_nil a). apply Hin. left.
  - apply StronglySorted_inv in H1 as [H1 Ha].
    apply StronglySorted_inv in H2 as [H2 Hb].
    rewrite Forall_forall in Ha, Hb.
    assert (a = b) as <-.
    { assert (a ∈ b :: l2) as [->|Ha2]%elem_of_cons by (apply Hin; left); [done|].
      assert (b ∈ a :: l1) as [->|Hb1]%elem_of_cons by (apply Hin; left); [done|].
      specialize (Ha _ Hb1). specialize (Hb _ Ha2). lia. }
    f_equal. apply IH; [done..|]. intros x. split; intros Hx.
    + assert (x ∈ a :: l2) as [->|?]%elem_of_cons by (apply Hin; by right);
        [|done]. specialize (Ha _ Hx). lia.
    + assert (x ∈ a :: l1) as [->|?]%elem_of_cons by (apply Hin; by right);
        [|done]. specialize (Hb _ Hx). lia.
Qed.

Lemma sorted_set_ext l1 l2 :
  (∀ x, x ∈ l1 ↔ x ∈ l2) → py_sorted (py_set l1) = py_sorted (py_set l2).
Proof.
  intros Hin. apply StronglySorted_lt_unique; [apply sorted_set_sorted..|].
  intros x. by rewrite !sorted_set_elem_of.
Qed.

Lemma sorted_set_id l : StronglySorted Z.lt l → py_sorted (py_set l) = l.
Proof.
  intros Hl. apply StronglySorted_lt_unique; [apply sorted_set_sorted|done|].
  apply sorted_set_elem_of.
Qed.

Lemma parse_ports_app_comma s1 s2 :
  parse_ports (s1 +:+ "," +:+ s2) =
    match parse_ports s1, parse_ports s2 with
    | Returned r1, Returned r2 => Returned (py_sorted (py_set (r1 ++ r2)))
    | Raised e, _ => Raised e
    | Returned _, Raised e => Raised e
    end.
Proof.
  unfold parse_ports.
  change (s1 +:+ "," +:+ s2) with (s1 +:+ String "," s2).
  rewrite split_app_sep, parse_ports_loop_app.
  destruct (parse_ports_loop [] (PyStr.split "," s1)) as [l1|e1]; simpl; [|done].
  rewrite parse_ports_loop_acc.
  destruct (parse_ports_loop [] (PyStr.split "," s2)) as [l2|e2]; simpl; [|done].
  f_equal. apply sorted_set_ext. intros x.
  by rewrite !elem_of_app, !sorted_set_elem_of.
Qed.

(** X1: a comma joins specifications.  When both halves are accepted the
    whole yields the sorted union of their ports; when one is not, the
    whole raises what the first rejected half raises. *)
Theorem parse_ports_comma (s1 s2 : string) :
  parse_ports (s1 +:+ "," +:+ s2) =
    match parse_ports s1, parse_ports s2 with
    | Returned r1, Returned r2 => Returned (py_sorted (py_set (r1 ++ r2)))
    | Raised e, _ => Raised e
    | Returned _, Raised e => Raised e
    end.
Proof. apply parse_ports_app_comma. Qed.

Lemma parse_ports_join_of_int (l : list Z) :
  Forall (λ p, 0 ≤ p) l →
  parse_ports (PyStr.join "," (PyStr.of_int <$> l)) = Returned (py_sorted (py_set l)).
Proof.
  induction 1 as [|x l Hx Hl IH]; [by vm_compute|].
  destruct l as [|y l].
  - change (PyStr.join "," (PyStr.of_int <$> [x])) with (PyStr.of_int x).
    rewrite parse_ports_of_int by done. by rewrite sorted_set_singleton.
  - change (PyStr.join "," (PyStr.of_int <$> x :: y :: l))
      with (PyStr.of_int x +:+ "," +:+ PyStr.join "," (PyStr.of_int <$> y :: l)).
    rewrite parse_ports_app_comma, IH, parse_ports_of_int by done.
    f_equal. apply sorted_set_ext. intros p.
    rewrite elem_of_app, sorted_set_elem_of, list_elem_of_singleton.
    by rewrite (elem_of_cons (y :: l)).
Qed.

(** X2: writing ports down and reading them back.  The decimal numerals of
    any ports that are not negative, joined by commas, are parsed to those
    ports, sorted and without repeats; so a list [parse_ports] has
    returned is read back unchanged. *)
Theorem parse_ports_join (l : list Z) :
  Forall (λ p, 0 ≤ p) l →
  parse_ports (PyStr.join "," (PyStr.of_int <$> l)) = Returned (py_sorted (py_set l)) ∧
  (StronglySorted Z.lt l →
   parse_ports (PyStr.join "," (PyStr.of_int <$> l)) = Returned l).
Proof.
  intros Hl. split; [by apply parse_ports_join_of_int|].
  intros Hs. rewrite parse_ports_join_of_int by done.
  by rewrite sorted_set_id.
Qed.

Lemma parse_ports_join_witness :
  Forall (λ p, 0 ≤ p) [443; 22; 80; 22] ∧
  parse_ports (PyStr.join "," (PyStr.of_int <$> [443; 22; 80; 22]))
  = Returned (py_sorted (py_set [443; 22; 80; 22])).
Proof.
  assert (Forall (λ p, 0 ≤ p) [443; 22; 80; 22]) as H
    by (repeat constructor; lia).
  split; [exact H|exact (proj1 (parse_ports_join _ H))].
Defined.

(** *** Stripping twice *)

Lemma lstrip_with_suffix sp s : ∃ w, s = w +:+ PyStr.lstrip_with sp s.
Proof.
  induction s as [|c s [w IH]]; [by exists ""|]. simpl.
  destruct (sp c); [|by exists ""].
  exists (String c w). change (String c s = String c (w +:+ PyStr.lstrip_with sp s)).
  by rewrite <- IH.
Qed.

Lemma lstrip_with_head sp s :
  match PyStr.lstrip_with sp s with "" => True | String c _ => sp c = false end.
Proof.
  induction s as [|c s IH]; simpl; [done|].
  by destruct (sp c) eqn:Hc.
Qed.

Lemma lstrip_with_id sp s :
  match s with "" => True | String c _ => sp c = false end →
  PyStr.lstrip_with sp s = s.
Proof. destruct s as [|c s]; simpl; [done|]. by intros ->. Qed.

Lemma rev_app_app s1 : ∀ s2 acc,
  String.rev_app (s1 +:+ s2) acc = String.rev_app s2 (String.rev_app s1 acc).
Proof.
  induction s1 as [|c s1 IH]; intros s2 acc; [done|].
  change (String.rev_app (s1 +:+ s2) (String c acc)
          = String.rev_app s2 (String.rev_app s1 (String c acc))).
  apply IH.
Qed.

Lemma rev_app_head sp s : ∀ acc1 acc2,
  s ≠ "" →
  match String.rev_app s acc1 with "" => True | String c _ => sp c = false end →
  match String.rev_app s acc2 with "" => True | String c _ => sp c = false end.
Proof.
  induction s as [|c s IH]; intros acc1 acc2 Hs; [done|]. simpl.
  destruct s as [|c' s]; [done|]. by apply IH.
Qed.

Lemma strip_with_idemp sp s :
  PyStr.strip_with sp (PyStr.strip_with sp s) = PyStr.strip_with sp s.
Proof.
  unfold PyStr.strip_with, PyStr.rstrip_with.
  set (a := PyStr.lstrip_with sp s).
  set (b := PyStr.lstrip_with sp (String.rev a)).
  assert (match String.rev b with "" => True | String c _ => sp c = false end)
    as Hhead.
  { destruct (lstrip_with_suffix sp (String.rev a)) as [w Hw]. fold b in Hw.
    destruct (decide (b = "")) as [->|Hb]; [done|].
    unfold String.rev. apply (rev_app_head sp b (String.rev_app w "")); [done|].
    rewrite <- rev_app_app, <- Hw.
    fold (String.rev (String.rev a)). rewrite string_rev_involutive.
    apply lstrip_with_head. }
  rewrite (lstrip_with_id sp (String.rev b)) by done.
  rewrite string_rev_involutive.
  by rewrite (lstrip_with_id sp b) by apply lstrip_with_head.
Qed.

Lemma parse_ports_step_strip acc part :
  parse_ports_step acc (PyStr.strip part) = parse_ports_step acc part.
Proof.
  unfold parse_ports_step, PyStr.strip. by rewrite strip_with_idemp.
Qed.

Lemma parse_ports_loop_tokens parts : ∀ acc,
  parse_ports_loop acc (parts_tokens parts) = parse_ports_loop acc parts.
Proof.
  induction parts as [|part parts IH]; intros acc; [done|].
  rewrite parts_tokens_cons. simpl.
  destruct (decide (PyStr.strip part = "")) as [He|Hne].
  - unfold parse_ports_step at 1. rewrite decide_True by done. simpl. apply IH.
  - simpl. rewrite parse_ports_step_strip.
    destruct (parse_ports_step acc part); simpl; [apply IH|done].
Qed.

(** X3: only the tokens count.  Two specifications with the same tokens,
    blanks around them stripped and empty ones dropped, are parsed alike:
    to the same ports, or with the same exception. *)
Theorem parse_ports_by_tokens (s1 s2 : string) :
  port_tokens s1 = port_tokens s2 → parse_ports s1 = parse_ports s2.
Proof.
  intros Htok. unfold parse_ports.
  rewrite <- (parse_ports_loop_tokens (PyStr.split "," s1)).
  rewrite <- (parse_ports_loop_tokens (PyStr.split "," s2)).
  unfold port_tokens in Htok. unfold parts_tokens. by rewrite Htok.
Qed.

Lemma parse_ports_by_tokens_witness :
  port_tokens " 22 ,, 80-81 ," = port_tokens "22,80-81" ∧
  parse_ports " 22 ,, 80-81 ," = parse_ports "22,80-81".
Proof.
  split; [reflexivity|].
  exact (parse_ports_by_tokens " 22 ,, 80-81 ," "22,80-81" eq_refl).
Defined.

Lemma token_range_ordered t lo hi : token_range t = Some (lo, hi) → lo ≤ hi.
Proof.
  unfold token_range. destruct (PyStr.contains "-" t).
  - destruct (PyStr.split1 "-" t) as [|a [|b [|? ?]]]; try done.
    destruct (PyStr.int_opt a) as [x|]; simpl; [|done].
    destruct (PyStr.int_opt b) as [y|]; simpl; [|done].
    intros [= <- <-]. lia.
  - destruct (PyStr.int_opt t); simpl; [|done]. intros [= <- <-]. lia.
Qed.

(** No port without a token, and no token without a port. *)
Lemma parse_ports_nil ports_str ps :
  parse_ports ports_str = Returned ps → (ps = [] ↔ port_tokens ports_str = []).
Proof.
  intros Hps. pose proof (parse_ports_cases ports_str) as H. rewrite Hps in H.
  destruct H as (Hall & _ & _ & Hin). split.
  - intros ->. destruct (port_tokens ports_str) as [|t toks]; [done|].
    apply Forall_cons in Hall as [[[lo hi] Ht] _].
    destruct (not_elem_of_nil lo). apply Hin. exists t, lo, hi.
    split; [left|]. split; [done|]. apply token_range_ordered in Ht. lia.
  - intros Hnil. rewrite Hnil in Hin. destruct ps as [|p ps]; [done|].
    destruct (in_tokens_nil p). apply Hin. left.
Qed.

(** ** What [main] does with what it is given *)

Lemma ping_pool_raised w hosts timeout max_workers order tr e :
  (ping_pool w hosts timeout max_workers order tr).1 = Raised e →
  max_workers ≤ 0 ∧ (ping_pool w hosts timeout max_workers order tr).2 = tr.
Proof.
  destruct (decide (0 < max_workers)) as [Hw|Hw].
  - by rewrite ping_pool_run.
  - unfold ping_pool, ThreadPoolExecutor. rewrite decide_True by lia.
    intros _. split; [lia|done].
Qed.

Lemma ping_pool_nonpositive w hosts timeout max_workers order tr :
  max_workers ≤ 0 →
  ping_pool w hosts timeout max_workers order tr
  = (Raised (Exn ValueError "max_workers must be greater than 0"), tr).
Proof.
  intros Hw. unfold ping_pool, ThreadPoolExecutor. by rewrite decide_True.
Qed.

Lemma port_scan_lookups gethostbyname w host ports timeout max_workers order :
  lookups (port_scan gethostbyname w host ports timeout max_workers order).2
  = [host].
Proof.
  destruct (gethostbyname host) as [target_ip|e] eqn:Hip.
  - destruct (decide (0 < max_workers)) as [Hw|Hw].
    + rewrite (port_scan_run _ _ _ _ _ _ _ target_ip) by done.
      simpl. rewrite !lookups_app, lookups_submits.
      rewrite (lookups_logs (_ ≫= _))
        by (apply Forall_bind_logs, port_logged_logs).
      done.
    + unfold port_scan, ThreadPoolExecutor. rewrite Hip, decide_True by lia.
      done.
  - unfold port_scan. rewrite Hip. by destruct (isinstance_gaierror e).
Qed.

Lemma ping_sweep_cidr_stopped l w cidr timeout max_workers order :
  max_workers ≤ 0 ∨ (∃ e, (ping_sweep_cidr l w cidr timeout max_workers order).1
                          = Raised e) →
  stopped_early (ping_sweep_cidr l w cidr timeout max_workers order).
Proof.
  unfold ping_sweep_cidr, stopped_early.
  destruct (ipaddress.ip_network l cidr) as [n|e0].
  - intros [Hw|[e He]].
    + rewrite ping_pool_nonpositive by done. simpl. eauto.
    + pose proof He as He'. apply ping_pool_raised in He' as [_ ->].
      rewrite He. eauto.
  - intros _. destruct (isinstance_ValueError e0); simpl; eauto.
Qed.

Lemma ping_sweep_range_stopped w base start end_ timeout max_workers order :
  max_workers ≤ 0 ∨ (∃ e, (ping_sweep_range w base start end_ timeout
                             max_workers order).1 = Raised e) →
  stopped_early (ping_sweep_range w base start end_ timeout max_workers order).
Proof.
  unfold ping_sweep_range, stopped_early.
  destruct (PyStr.endswith "." base); simpl; [|eauto].
  intros [Hw|[e He]].
  - rewrite ping_pool_nonpositive by done. simpl. eauto.
  - pose proof He as He'. apply ping_pool_raised in He' as [_ ->].
    rewrite He. eauto.
Qed.

Lemma port_scan_stopped gethostbyname w host ports timeout max_workers order :
  max_workers ≤ 0 ∨ (∃ e, (port_scan gethostbyname w host ports timeout
                             max_workers order).1 = Raised e) →
  stopped_early (port_scan gethostbyname w host ports timeout max_workers order).
Proof.
  unfold stopped_early. intros H.
  destruct (gethostbyname host) as [target_ip|e0] eqn:Hip.
  - destruct (decide (0 < max_workers)) as [Hw|Hw].
    + destruct H as [?|[e He]]; [lia|].
      by rewrite (port_scan_run _ _ _ _ _ _ _ target_ip) in He.
    + unfold port_scan, ThreadPoolExecutor. rewrite Hip, decide_True by lia.
      simpl. eauto.
  - unfold port_scan. rewrite Hip.
    destruct (isinstance_gaierror e0); simpl; eauto.
Qed.

Lemma http_check_stopped w urls timeout max_workers order :
  max_workers ≤ 0 ∨ (∃ e, (http_check w urls timeout max_workers order).1
                          = Raised e) →
  stopped_early (http_check w urls timeout max_workers order).
Proof.
  unfold stopped_early. intros H.
  destruct (decide (0 < max_workers)) as [Hw|Hw].
  - destruct H as [?|[e He]]; [lia|]. by rewrite http_check_run in He.
  - unfold http_check, ThreadPoolExecutor. rewrite decide_True by lia.
    simpl. eauto.
Qed.

(** What [main] makes of the run of an entry point. *)
Lemma finish_cases {A} (print : A → string) (run : pyres (list A) * list event) :
  let r := match run with
           | (Returned l, tr) => (0, print <$> l, tr)
           | (Raised e, tr) => (1, [], tr ++ [unhandled e])
           end in
  (r.1.1 = 0 ∨ r.1.1 = 1) ∧
  (r.1.1 = 1 → ∃ e, run.1 = Raised e ∧ last r.2 = Some (unhandled e)) ∧
  (stopped_early run → r.1.2 = [] ∧ submitted r.2 = []).
Proof.
  destruct run as [[l|e] tr]; simpl.
  - split; [by left|]. split; [done|].
    intros [Hsub [[= ->]|[e [=]]]]. done.
  - split; [by right|]. split.
    + intros _. exists e. by rewrite last_snoc.
    + intros [Hsub _]. simpl in Hsub. by rewrite submitted_app, Hsub.
Qed.

Lemma main_try_cases S args :
  let r := main_try S args in
  (r.1.1 = 0 ∨ r.1.1 = 1) ∧
  (r.1.1 = 1 →
     r.1.2 = [] ∧ submitted r.2 = [] ∧ ∃ msg, last r.2 = Some (Log ERROR msg)) ∧
  (workers args ≤ 0 → r.1.2 = [] ∧ submitted r.2 = []).
Proof.
  assert (∀ {A} (print : A → string) run,
            (workers args ≤ 0 ∨ (∃ e, run.1 = Raised e) → stopped_early run) →
            let r := match run with
                     | (Returned l, tr) => (0, print <$> l, tr)
                     | (Raised e, tr) => (1, [], tr ++ [unhandled e])
                     end in
            (r.1.1 = 0 ∨ r.1.1 = 1) ∧
            (r.1.1 = 1 →
               r.1.2 = [] ∧ submitted r.2 = [] ∧
               ∃ msg, last r.2 = Some (Log ERROR msg)) ∧
            (workers args ≤ 0 → r.1.2 = [] ∧ submitted r.2 = [])) as Hfinish.
  { intros A print run Hstop r.
    destruct (finish_cases print run) as (Hcode & Hone & Hclean). fold r in Hcode, Hone, Hclean.
    split; [done|]. split.
    - intros H1. destruct (Hone H1) as (e & He & Hlast).
      destruct Hclean as [-> ->]; [apply Hstop; eauto|]. eauto.
    - intros Hw. apply Hclean, Hstop. by left. }
  destruct args as [v w [cidr network start end_ timeout|host ports timeout|urls timeout]];
    unfold main_try; simpl in *.
  - destruct (decide (default "" cidr ≠ "")).
    + apply Hfinish, ping_sweep_cidr_stopped.
    + destruct start as [start|], end_ as [end_|]; simpl; eauto 10.
      destruct network as [network|]; simpl; [|eauto 10].
      apply Hfinish, ping_sweep_range_stopped.
  - destruct (parse_ports ports) as [ps|e]; simpl; [|unfold unhandled; eauto 10].
    destruct (decide (ps = [])); simpl; [eauto 10|].
    apply Hfinish, port_scan_stopped.
  - destruct (decide (split_urls urls = [])); simpl; [eauto 10|].
    apply Hfinish, http_check_stopped.
Qed.

(** What the printing loop leaves: every line written, or the lines before
    the call that raised. *)
Lemma print_lines_cases stdout lines : ∀ k0,
  match print_lines stdout k0 lines with
  | (written, None) => written = lines
  | (written, Some e) =>
      ∃ k line, lines !! k = Some line ∧
                stdout (k0 + k)%nat line = Raised e ∧ written = take k lines
  end.
Proof.
  induction lines as [|line lines IH]; intros k0; simpl; [done|].
  destruct (stdout k0 line) as [[]|e] eqn:Hout.
  - specialize (IH (S k0)).
    destruct (print_lines stdout (S k0) lines) as [written [e|]].
    + destruct IH as (k & l & Hl & He & ->). exists (S k), l.
      split; [done|]. split; [|done].
      by replace (k0 + S k)%nat with (S k0 + k)%nat by lia.
    + by subst.
  - exists 0%nat, line. by rewrite Nat.add_0_r.
Qed.

Lemma print_lines_accepted stdout lines : ∀ k0,
  (∀ k line, stdout k line = Returned ()) →
  print_lines stdout k0 lines = (lines, None).
Proof.
  induction lines as [|line lines IH]; intros k0 Hout; simpl; [done|].
  by rewrite Hout, IH.
Qed.

(** [main] on any standard output, from [main] on one that takes every
    line: a run that would end with 0 goes through the printing loop, and
    any other run has printed nothing. *)
Lemma main_try_stdout_spec stdout S args :
  main_try_stdout stdout S args =
    if decide ((main_try S args).1.1 = 0) then
      match print_lines stdout 0 (main_try S args).1.2 with
      | (written, None) => (0, written, (main_try S args).2)
      | (written, Some e) => (1, written, (main_try S args).2 ++ [unhandled e])
      end
    else main_try S args.
Proof.
  destruct args as [v w [cidr network start end_ timeout|host ports timeout|urls timeout]];
    unfold main_try_stdout, main_try; simpl.
  - destruct (decide (default "" cidr ≠ "")).
    + by destruct (ping_sweep_cidr _ _ _ _ _ _) as [[l|e] tr].
    + destruct start as [start|], end_ as [end_|]; simpl; try done.
      destruct network as [network|]; simpl; [|done].
      by destruct (ping_sweep_range _ _ _ _ _ _ _) as [[l|e] tr].
  - destruct (parse_ports ports) as [ps|e]; simpl; [|done].
    destruct (decide (ps = [])); simpl; [done|].
    by destruct (port_scan _ _ _ _ _ _ _) as [[l|e] tr].
  - destruct (decide (split_urls urls = [])); simpl; [done|].
    by destruct (http_check _ _ _ _ _) as [[l|e] tr].
Qed.

Lemma main_try_stdout_accepted stdout S args :
  (∀ k line, stdout k line = Returned ()) →
  main_try_stdout stdout S args = main_try S args.
Proof.
  intros Hout. rewrite main_try_stdout_spec, print_lines_accepted by done.
  destruct (decide _) as [H0|]; [|done].
  destruct (main_try S args) as [[code out] tr]. simpl in *. by subst.
Qed.

Example main_print_failure_ex :
  main_try_stdout (World.pipe 1) (sample_system [0; 1]%nat)
    (Namespace 0 64 (http_check_args "http://a,http://b" 5%float))
  = (1, ["http://a OK (status=200)"],
     [Log INFO "Starting HTTP checks for 2 URLs";
      Submit (check_http_url_call "http://a" 5%float);
      Submit (check_http_url_call "http://b" 5%float);
      Log INFO "HTTP http://a -> 200";
      Log INFO "HTTP http://b -> 404";
      Log INFO "HTTP checks complete";
      Log ERROR "Unhandled exception: [Errno 32] Broken pipe"]).
Proof. reflexivity. Qed.

(** X4: a run of [main] that is not interrupted from the keyboard ends
    with exit code 0 or 1.  One that ends with 0 has printed every line.
    One that ends with 1 has an error as the last record of its log, and
    either it has printed nothing and has probed nothing, or a call of
    [print] raised: then the lines before that call were printed, and the
    exception of [print] is the one the last record reports. *)
Theorem main_exit_codes (stdout : nat → string → pyres unit) (S : system)
    (args : namespace) :
  let r := main_try_stdout stdout S args in
  (r.1.1 = 0 ∨ r.1.1 = 1) ∧
  (r.1.1 = 0 → r = main_try S args) ∧
  (r.1.1 = 1 →
     (∃ msg, last r.2 = Some (Log ERROR msg)) ∧
     ((r.1.2 = [] ∧ submitted r.2 = []) ∨
      ∃ k line e,
        (main_try S args).1.2 !! k = Some line ∧ stdout k line = Raised e ∧
        r.1.2 = take k (main_try S args).1.2 ∧
        r.2 = (main_try S args).2 ++ [unhandled e])).
Proof.
  intros r. unfold r. rewrite main_try_stdout_spec.
  destruct (main_try_cases S args) as (Hcode & Hone & _).
  destruct (main_try S args) as [[code out] tr]. simpl in *.
  destruct (decide (code = 0)) as [->|Hcode0].
  - pose proof (print_lines_cases stdout out 0) as Hprint.
    destruct (print_lines stdout 0 out) as [written [e|]]; simpl.
    + destruct Hprint as (k & line & Hline & He & ->).
      split; [by right|]. split; [done|]. intros _. split.
      * exists ("Unhandled exception: " +:+ exn_str e). by rewrite last_snoc.
      * right. by exists k, line, e.
    + subst. split; [by left|]. split; [done|]. done.
  - destruct Hcode as [Hc | ->]; [done|]. simpl.
    split; [by right|]. split; [done|]. intros _.
    destruct (Hone eq_refl) as (-> & Hsub & Hlast). split; [done|]. by left.
Qed.

Lemma main_exit_codes_witness :
  (main_try_stdout (World.pipe 1) (sample_system [0; 1]%nat)
     (Namespace 0 64 (http_check_args "http://a,http://b" 5%float))).1.1 = 1 ∧
  ∃ msg,
    last (main_try_stdout (World.pipe 1) (sample_system [0; 1]%nat)
            (Namespace 0 64 (http_check_args "http://a,http://b" 5%float))).2
    = Some (Log ERROR msg).
Proof.
  split; [reflexivity|].
  exact (proj1 (proj2 (proj2 (main_exit_codes (World.pipe 1)
                                (sample_system [0; 1]%nat)
                                (Namespace 0 64
                                   (http_check_args "http://a,http://b" 5%float))))
                  eq_refl)).
Defined.

(** X5: without workers nothing happens.  When [--workers] is zero or
    negative [main] submits no probe and prints nothing, whatever the
    command and its targets. *)
Theorem main_without_workers (S : system) (args : namespace) :
  workers args ≤ 0 →
  (main_try S args).1.2 = [] ∧ submitted (main_try S args).2 = [].
Proof. intros Hw. by apply main_try_cases. Qed.

Lemma main_without_workers_witness :
  workers (Namespace 0 0 (http_check_args "http://a,http://b" 5%float)) ≤ 0 ∧
  (main_try (sample_system [0; 1]%nat)
     (Namespace 0 0 (http_check_args "http://a,http://b" 5%float))).1.2 = [] ∧
  submitted
    (main_try (sample_system [0; 1]%nat)
       (Namespace 0 0 (http_check_args "http://a,http://b" 5%float))).2 = [].
Proof.
  split; [simpl; lia|].
  apply (main_without_workers (sample_system [0; 1]%nat)
           (Namespace 0 0 (http_check_args "http://a,http://b" 5%float))).
  simpl; lia.
Defined.

(** X6: what [main] refuses before anything is looked up.  A port
    specification with a token that is no integer or range ends the run
    with exit code 1 and the exception as the only record; one without any
    token ends it with exit code 1 and [No valid ports specified]; in both
    cases nothing is printed and the host name is never looked up.  Any
    other specification leads to exactly one lookup of the host. *)
Theorem main_port_scan_refusals (S : system) (v w : Z) (host ports : string)
    (timeout : float) :
  let run := main_try S (Namespace v w (port_scan_args host ports timeout)) in
  match parse_ports ports with
  | Raised e => run = (1, [], [unhandled e])
  | Returned ps =>
      if decide (port_tokens ports = [])
      then run = (1, [], [Log ERROR "No valid ports specified"])
      else ps ≠ [] ∧ lookups run.2 = [host]
  end.
Proof.
  intros run. unfold run, main_try. simpl.
  destruct (parse_ports ports) as [ps|e] eqn:Hps; [|done].
  pose proof (parse_ports_nil ports ps Hps) as Hnil.
  destruct (decide (port_tokens ports = [])) as [Htok|Htok].
  - by rewrite decide_True by by apply Hnil.
  - assert (ps ≠ []) as Hne by (intros H; by apply Htok, Hnil).
    split; [done|]. rewrite decide_False by done.
    pose proof (port_scan_lookups (sys_gethostbyname S) (sys_socket S) host ps
                  timeout w (sys_as_completed S)) as Hl.
    destruct (port_scan _ _ _ _ _ _ _) as [[l|e] tr]; simpl in *; [done|].
    by rewrite lookups_app, Hl.
Qed.


(** ** What a sweep reports *)

Lemma elem_of_submit_all_bind {T F X} (fn : nat → T → F)
    (kept : T → F → list X) (l : list T) (x : X) :
  x ∈ submit_all fn l ≫= uncurry kept ↔
    ∃ (i : nat) (t : T), l !! i = Some t ∧ x ∈ kept t (fn i t).
Proof.
  unfold submit_all. rewrite list_elem_of_bind. split.
  - intros ([t r] & Hx & (i & t' & [= -> ->] & Hi)%elem_of_lookup_imap). eauto.
  - intros (i & t & Hi & Hx). exists (t, fn i t). split; [done|].
    by apply (elem_of_lookup_imap_2 (λ i t, (t, fn i t))).
Qed.

Lemma elem_of_ping_kept h host r :
  h ∈ ping_kept host r ↔ h = host ∧ r = Returned true.
Proof.
  destruct r as [[]|]; simpl; rewrite ?list_elem_of_singleton, ?elem_of_nil;
    split; try done; try (by intros [_ [=]]); by intros [? _].
Qed.


Lemma length_submit_all {T F} (fn : nat → T → F) l :
  length (submit_all fn l) = length l.
Proof. unfold submit_all. apply length_imap. Qed.

(** X8: the range sweep reports exactly the addresses that answered, each
    once.  With a prefix that ends in a dot, a pool of at least one worker
    and every future handed back once, an address is in the list returned
    exactly when it is one of [start .. end] after the prefix and its
    [ping_host] was true. *)
Theorem ping_sweep_range_live (w : nat → os) (base_network : string)
    (start end_ timeout max_workers : Z) (order : list nat) :
  PyStr.endswith "." base_network = true → 0 < max_workers →
  completion_order (Z.to_nat (end_ - start + 1)) order →
  ∃ live_hosts,
    (ping_sweep_range w base_network start end_ timeout max_workers order).1
    = Returned live_hosts ∧
    NoDup live_hosts ∧
    ∀ h, h ∈ live_hosts ↔
      ∃ k : nat, Z.of_nat k ≤ end_ - start ∧
                 h = base_network +:+ PyStr.of_int (start + Z.of_nat k) ∧
                 ping_host (w k) h timeout = true.
Proof.
  intros Hdot Hw Hperm. unfold ping_sweep_range. rewrite Hdot. simpl.
  rewrite ping_pool_run by done. simpl. eexists. split; [done|].
  set (hosts := range_hosts base_network start end_).
  set (futures := submit_all _ hosts).
  assert (length hosts = Z.to_nat (end_ - start + 1)) as Hlen.
  { unfold hosts, range_hosts, py_range. rewrite length_fmap, length_seqZ.
    f_equal. lia. }
  assert (completed futures order ≡ₚ futures) as Hc.
  { apply completed_Permutation. unfold futures.
    by rewrite length_submit_all, Hlen. }
  rewrite Hc. split.
  - eapply sublist_NoDup; [apply range_hosts_NoDup|apply ping_kept_sublist].
  - intros h. fold futures. rewrite Hc. unfold futures.
    rewrite elem_of_submit_all_bind.
    setoid_rewrite elem_of_ping_kept. split.
    + intros (k & t & Hk & -> & Hping). exists k.
      assert (Z.of_nat k ≤ end_ - start) as Hk'.
      { apply lookup_lt_Some in Hk. rewrite Hlen in Hk. lia. }
      unfold hosts in Hk. rewrite range_hosts_lookup in Hk by done.
      injection Hk as <-. split; [done|]. split; [done|]. by injection Hping.
    + intros (k & Hk & -> & Hping). exists k, (base_network +:+ PyStr.of_int (start + Z.of_nat k)).
      unfold hosts. rewrite range_hosts_lookup by done.
      split; [done|]. split; [done|]. by rewrite Hping.
Qed.

Lemma ping_sweep_range_live_witness :
  PyStr.endswith "." "10.0.0." = true ∧ 0 < 64 ∧
  completion_order (Z.to_nat (2 - 1 + 1)) [1; 0]%nat ∧
  ∃ live_hosts,
    (ping_sweep_range (λ _, World.linux ["10.0.0.2"]) "10.0.0." 1 2 1 64
       [1; 0]%nat).1 = Returned live_hosts ∧
    NoDup live_hosts.
Proof.
  assert (completion_order (Z.to_nat (2 - 1 + 1)) [1; 0]%nat) as Hperm
    by apply perm_swap.
  split; [reflexivity|]. split; [lia|]. split; [exact Hperm|].
  destruct (ping_sweep_range_live (λ _, World.linux ["10.0.0.2"]) "10.0.0."
              1 2 1 64 [1; 0]%nat eq_refl) as (live & Hlive & Hnd & _);
    [lia|exact Hperm|].
  exists live. split; [exact Hlive|exact Hnd].
Defined.



(** ** The HTTP checker from the command line *)

Lemma error_records_app tr1 tr2 :
  error_records (tr1 ++ tr2) = error_records tr1 ++ error_records tr2.
Proof. apply omap_app. Qed.

Lemma error_records_submits {A} (f : A → call) l :
  error_records (Submit ∘ f <$> l) = [].
Proof. induction l as [|x l IH]; simpl; done. Qed.

Lemma http_check_trace w urls timeout max_workers order :
  0 < max_workers →
  (http_check w urls timeout max_workers order).2 =
    ([Log INFO ("Starting HTTP checks for "
                +:+ PyStr.of_int (Z.of_nat (length urls)) +:+ " URLs")]
     ++ (Submit ∘ (λ url, check_http_url_call url timeout) <$> urls))
    ++ (completed (submit_all (λ i url, check_http_url (w i) url timeout) urls)
          order ≫= uncurry http_logged)
    ++ [Log INFO "HTTP checks complete"].
Proof.
  intros Hw. unfold http_check, ThreadPoolExecutor.
  rewrite decide_False by lia.
  rewrite (for_as_completed_app http_kept http_logged _ http_collect_app).
  simpl. by rewrite <- app_assoc.
Qed.

(** Every probe leaves one thing behind: an outcome, or an error record of
    the collector. *)
Lemma http_future_accounts requests_get url timeout :
  (length (http_kept url (check_http_url requests_get url timeout))
   + length (error_records
               (http_logged url (check_http_url requests_get url timeout))))%nat
  = 1%nat.
Proof.
  unfold check_http_url, http_kept, http_logged.
  destruct (requests_get url timeout) as [s|e]; simpl; [done|].
  by destruct (isinstance_RequestException e).
Qed.

Lemma bind_accounts {T F X} (kept : T → F → list X)
    (logged : T → F → list event) (l : list (T * F)) :
  Forall (λ f, (length (kept f.1 f.2)
                + length (error_records (logged f.1 f.2)))%nat = 1%nat) l →
  (length (l ≫= uncurry kept)
   + length (error_records (l ≫= uncurry logged)))%nat = length l.
Proof.
  induction 1 as [|[t r] l Hf Hl IH]; [done|].
  rewrite !bind_cons, error_records_app, !length_app. simpl in *. lia.
Qed.

Lemma completed_elem_of {T F} (futures : list (T * F)) order f :
  f ∈ completed futures order → f ∈ futures.
Proof.
  unfold completed. rewrite list_elem_of_omap.
  intros (i & _ & Hi). by eapply list_elem_of_lookup_2.
Qed.




(** *** The checker's outcomes and its log *)

(** Every future of the checker leaves an outcome or an error record. *)
Lemma http_check_accounts w urls timeout max_workers order :
  0 < max_workers → completion_order (length urls) order →
  ∃ results,
    (http_check w urls timeout max_workers order).1 = Returned results ∧
    (length results
     + length (error_records (http_check w urls timeout max_workers order).2))%nat
    = length urls.
Proof.
  intros Hw Hperm. eexists. split; [by apply http_check_run|].
  rewrite http_check_trace by done.
  set (futures := submit_all (λ i url, check_http_url (w i) url timeout) urls).
  assert (length (completed futures order) = length urls) as Hlen.
  { rewrite completed_Permutation.
    - apply length_submit_all.
    - unfold futures. by rewrite length_submit_all. }
  rewrite !error_records_app, error_records_submits. simpl.
  rewrite app_nil_r, <- Hlen. apply bind_accounts.
  apply Forall_forall. intros [url r] Hf%completed_elem_of.
  apply elem_of_lookup_imap in Hf as (i & url' & [= -> ->] & _).
  apply http_future_accounts.
Qed.

(** The collector's record for a probe that raised is in the log. *)
Lemma http_check_error_record w urls timeout max_workers order i url e :
  0 < max_workers → completion_order (length urls) order →
  urls !! i = Some url →
  (check_http_url (w i) url timeout).1 = Raised e →
  Log ERROR ("Unhandled exception checking " +:+ url +:+ ": " +:+ exn_str e)
    ∈ (http_check w urls timeout max_workers order).2.
Proof.
  intros Hw Hperm Hurl Hres. rewrite http_check_trace by done.
  set (futures := submit_all (λ i url, check_http_url (w i) url timeout) urls).
  assert ((url, check_http_url (w i) url timeout) ∈ completed futures order)
    as Hin.
  { rewrite completed_Permutation
      by (unfold futures; by rewrite length_submit_all).
    apply list_elem_of_lookup. exists i.
    unfold futures, submit_all. by rewrite list_lookup_imap, Hurl. }
  rewrite !elem_of_app. right. left.
  apply list_elem_of_bind. eexists. split; [|exact Hin].
  unfold uncurry, http_logged. simpl. rewrite Hres.
  apply elem_of_app. right. by apply list_elem_of_singleton.
Qed.

(** C1, as the code has it: with a pool of at least one worker, and every
    future handed back once, [http_check] returns one outcome for each URL
    whose probe returned, and nothing else: the results are a rearrangement
    of the outcomes of those probes, each naming its URL.  A transport
    error ([RequestException]) is such an outcome.  A probe that raises
    anything else leaves no outcome but the error record
    [Unhandled exception checking ...] in the log, so the results and the
    probes that raised add up to the number of URLs, and the log has as
    many error records as probes raised. *)
Theorem http_check_outcomes (w : nat → string → float → pyres Z)
    (urls : list string) (timeout : float) (max_workers : Z)
    (order : list nat) :
  0 < max_workers → completion_order (length urls) order →
  ∃ results,
    (http_check w urls timeout max_workers order).1 = Returned results ∧
    results ≡ₚ omap returned (http_outcomes w urls timeout) ∧
    (length results
     + length (filter (λ r, is_returned r = false)
                 (http_outcomes w urls timeout)))%nat = length urls ∧
    (∀ i url result,
       urls !! i = Some url →
       (check_http_url (w i) url timeout).1 = Returned result →
       result ∈ results ∧ result_url result = url) ∧
    (∀ i url e,
       urls !! i = Some url → w i url timeout = Raised e →
       isinstance_RequestException e = true →
       (url, false, 0, exn_str e) ∈ results) ∧
    (∀ i url e,
       urls !! i = Some url → w i url timeout = Raised e →
       isinstance_RequestException e = false →
       (check_http_url (w i) url timeout).1 = Raised e ∧
       Log ERROR ("Unhandled exception checking " +:+ url +:+ ": "
                  +:+ exn_str e)
         ∈ (http_check w urls timeout max_workers order).2) ∧
    length (error_records (http_check w urls timeout max_workers order).2)
    = length (filter (λ r, is_returned r = false)
                (http_outcomes w urls timeout)).
Proof.
  intros Hw Hperm.
  destruct (http_check_accounts w urls timeout max_workers order Hw Hperm)
    as (results & Hrun & Hsum).
  exists results. split; [done|].
  rewrite http_check_run in Hrun by done. injection Hrun as Hrun.
  set (futures := submit_all (λ i url, check_http_url (w i) url timeout) urls)
    in Hrun.
  assert (results ≡ₚ omap returned (http_outcomes w urls timeout)) as Hres.
  { rewrite <- Hrun, completed_Permutation.
    - apply reflexive_eq, http_kept_submit_all.
    - unfold futures, submit_all. by rewrite length_imap. }
  assert (∀ i url result,
            urls !! i = Some url →
            (check_http_url (w i) url timeout).1 = Returned result →
            result ∈ results) as Hin.
  { intros i url result Hurl Hret. rewrite Hres. apply list_elem_of_omap.
    exists (Returned result). split; [|done].
    apply list_elem_of_lookup. exists i.
    unfold http_outcomes. by rewrite list_lookup_imap, Hurl, <- Hret. }
  assert ((length results
           + length (filter (λ r, is_returned r = false)
                       (http_outcomes w urls timeout)))%nat = length urls)
    as Hraised.
  { rewrite Hres, omap_returned_length. unfold http_outcomes.
    by rewrite length_imap. }
  split; [done|]. split; [done|]. split; [|split; [|split]].
  - intros i url result Hurl Hret. split; [by eapply Hin|].
    by eapply check_http_url_url.
  - intros i url e Hurl He Hreq. apply (Hin i url); [done|].
    unfold check_http_url. by rewrite He, Hreq.
  - intros i url e Hurl He Hreq.
    assert ((check_http_url (w i) url timeout).1 = Raised e) as Hraise
      by (unfold check_http_url; by rewrite He, Hreq).
    split; [done|]. by eapply http_check_error_record.
  - lia.
Qed.

Lemma http_check_outcomes_witness :
  0 < 64 ∧ completion_order 2 [1; 0]%nat ∧
  ∃ results,
    (http_check
       (λ i, if Nat.even i then World.http [("http://a", 200)]
             else λ _ _, Raised (Exn RuntimeError "fault"))
       ["http://b"; "http://a"] 5%float 64 [1; 0]%nat).1 = Returned results ∧
    results ≡ₚ [("http://b", false, 0, "Max retries exceeded")] ∧
    Log ERROR "Unhandled exception checking http://a: fault"
      ∈ (http_check
           (λ i, if Nat.even i then World.http [("http://a", 200)]
                 else λ _ _, Raised (Exn RuntimeError "fault"))
           ["http://b"; "http://a"] 5%float 64 [1; 0]%nat).2.
Proof.
  assert (completion_order 2 [1; 0]%nat) as Hperm by apply perm_swap.
  split; [lia|]. split; [exact Hperm|].
  destruct (http_check_outcomes
              (λ i, if Nat.even i then World.http [("http://a", 200)]
                    else λ _ _, Raised (Exn RuntimeError "fault"))
              ["http://b"; "http://a"] 5%float 64 [1; 0]%nat)
    as (results & Hres & Hp & _ & _ & _ & Herr & _); [lia|exact Hperm|].
  exists results. split; [exact Hres|]. split; [exact Hp|].
  exact (proj2 (Herr 1%nat "http://a" (Exn RuntimeError "fault")
                  eq_refl eq_refl eq_refl)).
Defined.

(** C1, as stated, fails: with four URLs whose odd-indexed probes raise an
    exception that is no transport error, [http_check] hands back two
    outcomes, the other two probes leaving an error record each; and with
    a timeout of zero, which the client refuses with [ValueError], none at
    all. *)
Lemma http_check_drops_faulting_probes :
  http_check
    (λ i, if Nat.even i
          then World.http [("http://a", 200); ("http://c", 200)]
          else λ _ _, Raised (Exn RuntimeError "fault"))
    ["http://a"; "http://b"; "http://c"; "http://d"] 5%float 64
    [0; 1; 2; 3]%nat
  = (Returned [("http://a", true, 200, ""); ("http://c", true, 200, "")],
     [Log INFO "Starting HTTP checks for 4 URLs";
      Submit (check_http_url_call "http://a" 5%float);
      Submit (check_http_url_call "http://b" 5%float);
      Submit (check_http_url_call "http://c" 5%float);
      Submit (check_http_url_call "http://d" 5%float);
      Log INFO "HTTP http://a -> 200";
      Log ERROR "Unhandled exception checking http://b: fault";
      Log INFO "HTTP http://c -> 200";
      Log ERROR "Unhandled exception checking http://d: fault";
      Log INFO "HTTP checks complete"]) ∧
  (http_check (λ _, World.http [("http://a", 200)]) ["http://a"; "http://b"]
     0%float 64 [0; 1]%nat).1
  = Returned [].
Proof. split; by vm_compute. Qed.



(** X11: the line printed for a URL tells what its probe met.  For an
    outcome of [check_http_url] the line is [OK] with the status code for a
    response below 400, [FAIL] with the status code for any other response,
    and [ERROR] with the text of the exception when the request raised. *)
Theorem http_line_of_probe (requests_get : string → float → pyres Z)
    (url : string) (timeout : float) (result : http_result) :
  (check_http_url requests_get url timeout).1 = Returned result →
  http_line result =
    match requests_get url timeout with
    | Returned status_code =>
        if decide (status_code < 400)
        then url +:+ " OK (status=" +:+ PyStr.of_int status_code +:+ ")"
        else url +:+ " FAIL (status=" +:+ PyStr.of_int status_code +:+ ")"
    | Raised e => url +:+ " ERROR (" +:+ exn_str e +:+ ")"
    end.
Proof.
  unfold check_http_url.
  destruct (requests_get url timeout) as [status_code|e].
  - intros [= <-]. unfold http_line.
    destruct (decide (status_code < 400)) as [Hs|Hs].
    + by rewrite bool_decide_eq_true_2.
    + rewrite bool_decide_eq_false_2 by done. by rewrite decide_True by lia.
  - destruct (isinstance_RequestException e); [|done]. by intros [= <-].
Qed.

Lemma http_line_of_probe_witness :
  (check_http_url (World.http [("http://b", 404)]) "http://b" 5%float).1
  = Returned ("http://b", false, 404, "") ∧
  http_line ("http://b", false, 404, "") = "http://b FAIL (status=404)".
Proof.
  split; [reflexivity|].
  exact (http_line_of_probe (World.http [("http://b", 404)]) "http://b" 5%float
           _ eq_refl).
Defined.

(** ** The logger *)

(** X12: setting the logger up twice changes nothing.  Once a call of
    [setup_logger] has returned, any further call, whatever its verbosity
    and log file, returns without opening a file and leaves the level and
    the handlers as they are: no handler is added twice and the verbosity
    of the first call stays. *)
Theorem setup_logger_once (open1 open2 : string → pyres unit) (v1 v2 : Z)
    (file1 file2 : string) (lg : logger) :
  (setup_logger open1 v1 file1 lg).1 = Returned () →
  setup_logger open2 v2 file2 (setup_logger open1 v1 file1 lg).2
  = (Returned (), (setup_logger open1 v1 file1 lg).2).
Proof.
  unfold setup_logger. simpl.
  destruct (decide (logger_handlers lg ≠ [])) as [Hh|Hh]; simpl.
  - intros _. by rewrite decide_True.
  - destruct (open1 file1) as [[]|e]; simpl; [|done]. intros _.
    rewrite decide_True; [done|]. by destruct (logger_handlers lg).
Qed.

Lemma setup_logger_once_witness :
  (setup_logger (λ _, Returned ()) 0 "network_diag.log" (Logger None [])).1
  = Returned () ∧
  setup_logger (λ _, Raised (Exn OSError "[Errno 13] Permission denied")) 2
    "other.log"
    (setup_logger (λ _, Returned ()) 0 "network_diag.log" (Logger None [])).2
  = (Returned (),
     Logger (Some DEBUG)
       [Handler StreamHandler WARNING;
        Handler (FileHandler "network_diag.log") DEBUG]).
Proof.
  split; [reflexivity|].
  exact (setup_logger_once (λ _, Returned ())
           (λ _, Raised (Exn OSError "[Errno 13] Permission denied")) 0 2
           "network_diag.log" "other.log" (Logger None []) eq_refl).
Defined.

Lemma written_fresh (cl : level) (file : string) (tr : list event) :
  let lg := Logger (Some DEBUG)
              [Handler StreamHandler cl; Handler (FileHandler file) DEBUG] in
  written lg to_file tr = log_records tr ∧
  written lg to_console tr
  = filter (λ r, levelno cl ≤ levelno r.1) (log_records tr).
Proof.
  intros lg. unfold written.
  induction (log_records tr) as [|[lvl msg] recs [IHf IHc]]; [done|].
  rewrite !bind_cons, IHf, IHc, filter_cons. simpl.
  unfold handlers_for. simpl.
  rewrite decide_True by (destruct lvl; simpl; lia).
  rewrite !filter_cons, filter_nil. simpl.
  rewrite (decide_True (P := 10 ≤ levelno lvl)) by (destruct lvl; simpl; lia).
  by destruct (decide (levelno cl ≤ levelno lvl)).
Qed.

Lemma console_level_mono v v' :
  v ≤ v' → levelno (console_level v') ≤ levelno (console_level v).
Proof. intros Hv. unfold console_level. repeat case_decide; simpl; lia. Qed.

Lemma filter_sublist_impl {A} (P Q : A → Prop) `{∀ x, Decision (P x)}
    `{∀ x, Decision (Q x)} (l : list A) :
  (∀ x, P x → Q x) → filter P l `sublist_of` filter Q l.
Proof.
  intros HPQ. induction l as [|x l IH]; [done|].
  rewrite !filter_cons. destruct (decide (P x)) as [HP|HP].
  - rewrite decide_True by auto. by apply sublist_skip.
  - destruct (decide (Q x)); [by apply sublist_cons|done].
Qed.

Lemma setup_logger_fresh open_file v file :
  open_file file = Returned () →
  setup_logger open_file v file (Logger None [])
  = (Returned (),
     Logger (Some DEBUG)
       [Handler StreamHandler (console_level v);
        Handler (FileHandler file) DEBUG]).
Proof. intros Ho. unfold setup_logger, console_level. simpl. by rewrite Ho. Qed.

(** X13: where the records go.  After [setup_logger] has set up a logger
    that had no handler, every record that is logged is written to the log
    file, and the console gets those at or above WARNING, at or above INFO
    for verbosity 1, and all of them from verbosity 2 on; a higher
    verbosity never hides a record a lower one shows. *)
Theorem logger_destinations (open_file : string → pyres unit) (v : Z)
    (file : string) (tr : list event) :
  open_file file = Returned () →
  let lg := (setup_logger open_file v file (Logger None [])).2 in
  written lg to_file tr = log_records tr ∧
  written lg to_console tr
  = filter (λ r, levelno (console_level v) ≤ levelno r.1) (log_records tr) ∧
  ∀ v', v ≤ v' →
    written lg to_console tr
    `sublist_of`
    written (setup_logger open_file v' file (Logger None [])).2 to_console tr.
Proof.
  intros Ho lg. unfold lg. rewrite setup_logger_fresh by done. simpl.
  destruct (written_fresh (console_level v) file tr) as [Hf Hc].
  split; [done|]. split; [done|].
  intros v' Hv. rewrite setup_logger_fresh by done. simpl.
  destruct (written_fresh (console_level v') file tr) as [_ Hc'].
  rewrite Hc, Hc'. apply filter_sublist_impl.
  intros r Hr. pose proof (console_level_mono v v' Hv). lia.
Qed.

Lemma logger_destinations_witness :
  (λ _ : string, Returned ()) "network_diag.log" = Returned () ∧
  written
    (setup_logger (λ _, Returned ()) 1 "network_diag.log" (Logger None [])).2
    to_console
    [Log INFO "Host UP: 10.0.0.1"; Submit (ping_host_call "10.0.0.2" 1);
     Log DEBUG "Host DOWN: 10.0.0.2"; Log ERROR "Invalid CIDR x: bad"]
  = [(INFO, "Host UP: 10.0.0.1"); (ERROR, "Invalid CIDR x: bad")].
Proof.
  split; [reflexivity|].
  destruct (logger_destinations (λ _, Returned ()) 1 "network_diag.log"
              [Log INFO "Host UP: 10.0.0.1"; Submit (ping_host_call "10.0.0.2" 1);
               Log DEBUG "Host DOWN: 10.0.0.2"; Log ERROR "Invalid CIDR x: bad"]
              eq_refl) as (_ & Hc & _).
  rewrite Hc. reflexivity.
Defined.

Lemma log_records_app tr1 tr2 :
  log_records (tr1 ++ tr2) = log_records tr1 ++ log_records tr2.
Proof. apply omap_app. Qed.

Lemma log_records_submits {A} (f : A → call) l :
  log_records (Submit ∘ f <$> l) = [].
Proof. induction l as [|x l IH]; simpl; done. Qed.







(** ** More on what the sweeps report *)

(** X15: the CIDR sweep reports exactly the hosts of the block that
    answered.  For a network the library has read, a pool of at least one
    worker and every future handed back once, a string is in the list
    returned exactly when it is the text of the [k]-th host of the block,
    counted from the first, and [ping_host] on it was true. *)
Theorem ping_sweep_cidr_live (l : ipaddress.lib) (w : nat → os)
    (cidr : string) (timeout max_workers : Z) (order : list nat)
    (n : ipaddress.network) :
  ipaddress.ip_network l cidr = Returned n → ipaddress.wf n →
  0 < max_workers → completion_order (Z.to_nat (host_count n)) order →
  ∃ live_hosts,
    (ping_sweep_cidr l w cidr timeout max_workers order).1 = Returned live_hosts ∧
    ∀ h, h ∈ live_hosts ↔
      ∃ k : nat,
        Z.of_nat k < host_count n ∧
        h = ipaddress.address_str l (ipaddress.net_version n)
              (first_host n + Z.of_nat k) ∧
        ping_host (w k) h timeout = true.
Proof.
  intros Hn Hwf Hw Hperm. unfold ping_sweep_cidr. rewrite Hn.
  rewrite ping_pool_run by done. simpl. eexists. split; [done|].
  intros h. unfold cidr_hosts. rewrite (hosts_eq n Hwf).
  set (hosts := _ <$> seqZ _ _).
  assert (length hosts = Z.to_nat (host_count n)) as Hlen
    by (unfold hosts; by rewrite length_fmap, length_seqZ).
  rewrite completed_Permutation by (by rewrite length_submit_all, Hlen).
  rewrite elem_of_submit_all_bind. setoid_rewrite elem_of_ping_kept.
  assert (∀ (k : nat) t, hosts !! k = Some t ↔
            Z.of_nat k < host_count n ∧
            t = ipaddress.address_str l (ipaddress.net_version n)
                  (first_host n + Z.of_nat k)) as Hlook.
  { intros k t. unfold hosts. rewrite list_lookup_fmap, fmap_Some.
    setoid_rewrite lookup_seqZ. split.
    - intros (a & [Ha Hk] & Ht). by subst.
    - intros [Hk ->]. eauto. }
  split.
  - intros (k & t & [Hk ->]%Hlook & -> & [= Hping]). eauto.
  - intros (k & Hk & -> & Hping). eexists k, _. rewrite Hlook, Hping. done.
Qed.

Lemma ping_sweep_cidr_live_witness :
  ipaddress.ip_network World.ip4 "10.0.0.5/30"
  = Returned (ipaddress.Network ipaddress.IPv4 167772164 30) ∧
  ipaddress.wf (ipaddress.Network ipaddress.IPv4 167772164 30) ∧ 0 < 64 ∧
  completion_order
    (Z.to_nat (host_count (ipaddress.Network ipaddress.IPv4 167772164 30)))
    [1; 0]%nat ∧
  ∃ live_hosts,
    (ping_sweep_cidr World.ip4 (λ _, World.linux ["10.0.0.6"]) "10.0.0.5/30"
       1 64 [1; 0]%nat).1 = Returned live_hosts.
Proof.
  assert (ipaddress.wf (ipaddress.Network ipaddress.IPv4 167772164 30)) as Hwf
    by (split; by vm_compute).
  assert (completion_order
            (Z.to_nat (host_count (ipaddress.Network ipaddress.IPv4 167772164 30)))
            [1; 0]%nat) as Hperm by apply perm_swap.
  split; [reflexivity|]. split; [exact Hwf|]. split; [lia|].
  split; [exact Hperm|].
  destruct (ping_sweep_cidr_live World.ip4 (λ _, World.linux ["10.0.0.6"])
              "10.0.0.5/30" 1 64 [1; 0]%nat _ eq_refl Hwf)
    as (live & Hlive & _); [lia|exact Hperm|].
  by exists live.
Defined.

Lemma port_future_accounts target_ip (l : list (Z * pyres bool)) :
  length (log_records (l ≫= uncurry (port_logged target_ip))) = length l ∧
  length (error_records (l ≫= uncurry (port_logged target_ip)))
  = length (filter (λ f, is_returned f.2 = false) l).
Proof.
  induction l as [|[port r] l [IHl IHe]]; [done|].
  rewrite bind_cons, log_records_app, error_records_app, !length_app, IHl, IHe.
  rewrite filter_cons. destruct r as [[]|e]; simpl; done.
Qed.

(** X16: a port scan accounts for every port in the log.  For a host that
    resolves, a pool of at least one worker and every future handed back
    once, the scan writes two records of its own and exactly one record for
    each port, and as many of them are error records as probes raised; the
    other probes are not affected. *)
Theorem port_scan_accounts (gethostbyname : string → pyres string)
    (w : nat → sock) (host : string) (ports : list Z) (timeout : float)
    (max_workers : Z) (order : list nat) (target_ip : string) :
  gethostbyname host = Returned target_ip → 0 < max_workers →
  completion_order (length ports) order →
  let tr := (port_scan gethostbyname w host ports timeout max_workers order).2 in
  length (log_records tr) = (length ports + 2)%nat ∧
  length (error_records tr)
  = length (filter (λ f, is_returned f.2 = false)
              (submit_all (λ i port, scan_port (w i) target_ip port timeout)
                 ports)).
Proof.
  intros Hip Hw Hperm tr. unfold tr.
  rewrite (port_scan_run _ _ _ _ _ _ _ target_ip) by done. simpl.
  set (futures := submit_all _ ports).
  assert (completed futures order ≡ₚ futures) as Hc.
  { apply completed_Permutation. unfold futures. by rewrite length_submit_all. }
  destruct (port_future_accounts target_ip (completed futures order))
    as [Hl He].
  assert (length (completed futures order) = length ports) as Hlen.
  { rewrite Hc. apply length_submit_all. }
  assert (length (filter (λ f, is_returned f.2 = false) (completed futures order))
          = length (filter (λ f, is_returned f.2 = false) futures)) as Hfil
    by (by rewrite Hc).
  rewrite !log_records_app, !error_records_app, log_records_submits,
    error_records_submits. simpl.
  rewrite !length_app, Hl, He, Hlen, Hfil. simpl. split; lia.
Qed.

Lemma port_scan_accounts_witness :
  World.resolver [("localhost", "127.0.0.1")] "localhost" = Returned "127.0.0.1" ∧
  0 < 64 ∧ completion_order (length [22; 80]) [1; 0]%nat ∧
  length (log_records
            (port_scan (World.resolver [("localhost", "127.0.0.1")])
               (λ _, World.tcp [22]) "localhost" [22; 80] (-1)%float 64
               [1; 0]%nat).2)
  = (length [22; 80] + 2)%nat.
Proof.
  assert (completion_order (length [22; 80]) [1; 0]%nat) as Hperm
    by apply perm_swap.
  split; [reflexivity|]. split; [lia|]. split; [exact Hperm|].
  apply (port_scan_accounts (World.resolver [("localhost", "127.0.0.1")])
           (λ _, World.tcp [22]) "localhost" [22; 80] (-1)%float 64 [1; 0]%nat
           "127.0.0.1" eq_refl); [lia|exact Hperm].
Defined.

(** *** A range token between two numerals *)

Lemma contains_app_sep c a b : PyStr.contains c (a +:+ String c b) = true.
Proof.
  induction a as [|x a IH].
  - change (PyStr.contains c (String c b) = true). simpl. by rewrite decide_True.
  - change (PyStr.contains c (String x (a +:+ String c b)) = true). simpl.
    by destruct (decide (x = c)).
Qed.

Lemma split1_app_sep c a b :
  PyStr.contains c a = false → PyStr.split1 c (a +:+ String c b) = [a; b].
Proof.
  induction a as [|x a IH]; intros Ha.
  - change (PyStr.split1 c (String c b) = [""; b]). simpl. by rewrite decide_True.
  - change (PyStr.split1 c (String x (a +:+ String c b)) = [String x a; b]).
    simpl in *. destruct (decide (x = c)); [done|]. by rewrite IH.
Qed.

Lemma split_no_sep c s : PyStr.contains c s = false → PyStr.split c s = [s].
Proof.
  induction s as [|x s IH]; simpl; [done|].
  destruct (decide (x = c)); [done|]. intros Hs. by rewrite IH.
Qed.

Lemma contains_app c a b :
  PyStr.contains c (a +:+ b) = PyStr.contains c a || PyStr.contains c b.
Proof.
  induction a as [|x a IH]; [done|].
  change (PyStr.contains c (String x (a +:+ b))
          = PyStr.contains c (String x a) || PyStr.contains c b).
  simpl. by destruct (decide (x = c)).
Qed.

(** Blanks are stripped from neither end of a text that starts and ends
    with a digit. *)
Lemma strip_with_between_digits sp a m b :
  (∀ c, is_digit c = true → sp c = false) →
  all_chars is_digit a = true → a ≠ "" →
  all_chars is_digit b = true → b ≠ "" →
  PyStr.strip_with sp (a +:+ m +:+ b) = a +:+ m +:+ b.
Proof.
  intros Hsp Ha Hane Hb Hbne. unfold PyStr.strip_with, PyStr.rstrip_with.
  rewrite (lstrip_with_id sp (a +:+ m +:+ b)).
  - rewrite lstrip_with_id; [apply string_rev_involutive|].
    unfold String.rev. rewrite !rev_app_app.
    apply (rev_app_head sp b ""); [done|].
    assert (all_chars is_digit (String.rev b) = true) as Hrev
      by (by rewrite all_chars_rev).
    unfold String.rev in Hrev.
    destruct (String.rev_app b "") as [|c r]; [done|].
    simpl in Hrev. apply andb_true_iff in Hrev as [Hc _]. by apply Hsp.
  - destruct a as [|c a]; [done|].
    simpl in Ha. apply andb_true_iff in Ha as [Hc _]. by apply Hsp.
Qed.

(** X17: a range may be written either way round.  For two numbers that
    are not negative, [a-b] is parsed to every port from the smaller to
    the larger of the two, both included, in ascending order; so [a-b] and
    [b-a] are parsed alike, and [a-a] to the one port [a]. *)
Theorem parse_ports_range (a b : Z) :
  0 ≤ a → 0 ≤ b →
  parse_ports (PyStr.of_int a +:+ "-" +:+ PyStr.of_int b)
  = Returned (py_range (Z.min a b) (Z.max a b + 1)) ∧
  parse_ports (PyStr.of_int b +:+ "-" +:+ PyStr.of_int a)
  = parse_ports (PyStr.of_int a +:+ "-" +:+ PyStr.of_int b).
Proof.
  assert (∀ a b, 0 ≤ a → 0 ≤ b →
    parse_ports (PyStr.of_int a +:+ "-" +:+ PyStr.of_int b)
    = Returned (py_range (Z.min a b) (Z.max a b + 1))) as Hone.
  { clear a b. intros a b Ha Hb.
    destruct (of_int_numeral a Ha) as (Hda & Hnea & _).
    destruct (of_int_numeral b Hb) as (Hdb & Hneb & _).
    change (PyStr.of_int a +:+ "-" +:+ PyStr.of_int b)
      with (PyStr.of_int a +:+ String "-" (PyStr.of_int b)).
    set (t := PyStr.of_int a +:+ String "-" (PyStr.of_int b)).
    assert (PyStr.strip t = t) as Hstrip.
    { apply (strip_with_between_digits PyStr.isspace (PyStr.of_int a) "-"
               (PyStr.of_int b)); try done.
      by intros [[] [] [] [] [] [] [] []]. }
    assert (token_range t = Some (Z.min a b, Z.max a b)) as Htok.
    { unfold token_range, t.
      rewrite contains_app_sep, split1_app_sep by (by apply contains_digits).
      by rewrite !int_opt_of_int. }
    assert (PyStr.split "," t = [t]) as Hsplit.
    { apply split_no_sep. unfold t.
      rewrite contains_app, contains_digits by done.
      simpl. by apply contains_digits. }
    unfold parse_ports. rewrite Hsplit. simpl.
    pose proof (parse_ports_step_spec [] t) as Hstep. simpl in Hstep.
    rewrite Hstrip, Htok in Hstep.
    destruct (decide (t = "")) as [Ht|_].
    { apply (f_equal (PyStr.contains "-")) in Ht. unfold t in Ht.
      by rewrite contains_app_sep in Ht. }
    rewrite Hstep. simpl. f_equal. apply sorted_set_id, StronglySorted_seqZ. }
  intros Ha Hb. split; [by apply Hone|].
  rewrite !Hone by done. by rewrite Z.min_comm, Z.max_comm.
Qed.

Lemma parse_ports_range_witness :
  0 ≤ 1010 ∧ 0 ≤ 1007 ∧
  parse_ports "1010-1007" = Returned [1007; 1008; 1009; 1010] ∧
  parse_ports "1007-1010" = parse_ports "1010-1007".
Proof.
  split; [lia|]. split; [lia|].
  apply (parse_ports_range 1010 1007); lia.
Defined.

(** *** When [main] raises *)

(** X18: [main] raises only for its log file.  A call of [main] ends with
    an exception exactly when the logger has no handler yet and the log
    file cannot be opened: the exception is the one of the opening, no
    command has run, and the logger is left without a handler, at level
    DEBUG, so that the library's handler of last resort shows its warnings
    and errors on the console.  In every other case [main] returns what
    its [try] block gives. *)
Theorem main_raises_only_for_log_file (S : system) (args : namespace)
    (lg : logger) :
  (∀ e, (main S args lg).1 = Raised e ↔
        logger_handlers lg = [] ∧ sys_open S "network_diag.log" = Raised e) ∧
  (∀ e, (main S args lg).1 = Raised e →
        (main S args lg).2 = Logger (Some DEBUG) [] ∧
        ∀ lvl, handlers_for (main S args lg).2 lvl
               = if decide (levelno WARNING ≤ levelno lvl)
                 then [Handler StreamHandler WARNING] else []) ∧
  (∀ r, (main S args lg).1 = Returned r → r = main_try S args).
Proof.
  unfold main, setup_logger. simpl.
  destruct (decide (logger_handlers lg ≠ [])) as [Hh|Hh]; simpl.
  - split; [|split]; [| |congruence]; intros e; [|done].
    split; [done|]. by intros [? _].
  - apply dec_stable in Hh.
    destruct (sys_open S "network_diag.log") as [[]|e'] eqn:Hopen; simpl.
    + split; [|split]; [| |congruence]; intros e; [|done].
      split; [done|]. by intros [_ ?].
    + split; [|split]; [| |done].
      * intros e. split; [by intros [= ->]|]. by intros [_ [= ->]].
      * intros e _. rewrite Hh. split; [done|]. intros lvl.
        unfold handlers_for. simpl.
        destruct lvl; vm_compute; done.
Qed.
